(** * Authorization matchers: [StringMatcher] and [HeaderMatcher]

    A shallow embedding of [src/core/lib/security/authorization/matchers.cc]
    together with the properties its specification states about it.

    Layout of the development:
    - [Absl]: the string and number helpers of Abseil that the matchers
      call ([EqualsIgnoreCase], [StartsWith], [StrContains], [SimpleAtoi],
      ...), written after their implementation;
    - [RE2Engine]: the interface of the regular-expression engine the
      matchers use; [RefRE2], the standard meaning of a fragment of the
      RE2 syntax with a derivative-based matcher; [RE2Contract], what the
      specification asks of the engine;
    - [StringMatcher] and [HeaderMatcher]: the two classes of the source;
    - the properties. *)

From Stdlib Require Import ZArith List Bool Ascii String Lia DecimalString.
Import ListNotations.

Local Open Scope string_scope.
Local Open Scope Z_scope.

(** ** Results of operations whose C++ behaviour may be undefined

    A member function that dereferences [regex_matcher_] or reads a data
    member no constructor has set has no defined result when the pointer
    is null or the member was never written.  Such functions return
    [option]: [Some r] is the returned value, [None] stands for undefined
    behaviour.  Matchers obtained from [Create] never reach [None]. *)

Definition bind_ub {A B : Type} (x : option A) (k : A -> option B) : option B :=
  match x with
  | Some a => k a
  | None => None
  end.

Notation "x <- e ;; k" := (bind_ub e (fun x => k))
  (at level 61, e at next level, right associativity).

(** ** [absl::Status] and [absl::StatusOr] *)

(** The only non-OK status the matchers produce is
    [absl::InvalidArgumentError(message)]. *)
Inductive Status : Type :=
| InvalidArgumentError (message : string).

Inductive StatusOr (T : Type) : Type :=
| OkValue (value : T)
| NotOk (status : Status).

Arguments OkValue {T} value.
Arguments NotOk {T} status.

Definition ok {T : Type} (s : StatusOr T) : bool :=
  match s with
  | OkValue _ => true
  | NotOk _ => false
  end.

(** ** Abseil helpers *)

Module Absl.

(** [absl::ascii_tolower]: the letters ['A'..'Z'] go to ['a'..'z'], every
    other byte (in particular every byte above 127) is left alone. *)
Definition ascii_tolower (c : ascii) : ascii :=
  let n := N_of_ascii c in
  if ((65 <=? n) && (n <=? 90))%N then ascii_of_N (n + 32) else c.

(** [absl::ascii_isspace]: space, [\t], [\n], [\v], [\f], [\r]. *)
Definition ascii_isspace (c : ascii) : bool :=
  let n := N_of_ascii c in
  ((n =? 32) || ((9 <=? n) && (n <=? 13)))%N.

(** [absl::AsciiStrToLower]: [ascii_tolower] on every byte. *)
Fixpoint AsciiStrToLower (s : string) : string :=
  match s with
  | EmptyString => EmptyString
  | String c rest => String (ascii_tolower c) (AsciiStrToLower rest)
  end.

(** Pointer arithmetic [s.data() + n] on a view: the view without its first
    [n] bytes. *)
Fixpoint advance (n : nat) (s : string) : string :=
  match n, s with
  | O, _ => s
  | S n', String _ rest => advance n' rest
  | S _, EmptyString => EmptyString
  end.

(** [memcmp(s1, s2, len)]: the difference of the first pair of bytes that
    differ among the first [len], or [0]. Callers make sure both buffers
    hold [len] bytes. *)
Fixpoint memcmp (s1 s2 : string) (len : nat) : Z :=
  match len, s1, s2 with
  | S len', String a r1, String b r2 =>
      let diff := Z.of_N (N_of_ascii a) - Z.of_N (N_of_ascii b) in
      if diff =? 0 then memcmp r1 r2 len' else diff
  | _, _, _ => 0
  end.

(** [absl::strings_internal::memcasecmp]: [memcmp] after [ascii_tolower]. *)
Fixpoint memcasecmp (s1 s2 : string) (len : nat) : Z :=
  match len, s1, s2 with
  | S len', String a r1, String b r2 =>
      let diff := Z.of_N (N_of_ascii (ascii_tolower a))
                  - Z.of_N (N_of_ascii (ascii_tolower b)) in
      if diff =? 0 then memcasecmp r1 r2 len' else diff
  | _, _, _ => 0
  end.

(** [operator==] on [string_view]: same size and equal bytes. *)
Definition view_eq (a b : string) : bool :=
  (length a =? length b)%nat && (memcmp a b (length a) =? 0).

(** [absl::EqualsIgnoreCase]. *)
Definition EqualsIgnoreCase (piece1 piece2 : string) : bool :=
  (length piece1 =? length piece2)%nat
  && (memcasecmp piece1 piece2 (length piece1) =? 0).

(** [string_view::empty]. *)
Definition empty (s : string) : bool :=
  match s with
  | EmptyString => true
  | String _ _ => false
  end.

(** [absl::StartsWith]. *)
Definition StartsWith (text prefix : string) : bool :=
  empty prefix
  || ((length prefix <=? length text)%nat
      && (memcmp text prefix (length prefix) =? 0)).

(** [absl::EndsWith]. *)
Definition EndsWith (text suffix : string) : bool :=
  empty suffix
  || ((length suffix <=? length text)%nat
      && (memcmp (advance (length text - length suffix) text) suffix
                 (length suffix) =? 0)).

(** [absl::StartsWithIgnoreCase]. *)
Definition StartsWithIgnoreCase (text prefix : string) : bool :=
  (length prefix <=? length text)%nat
  && EqualsIgnoreCase (substring 0 (length prefix) text) prefix.

(** [absl::EndsWithIgnoreCase]. *)
Definition EndsWithIgnoreCase (text suffix : string) : bool :=
  (length suffix <=? length text)%nat
  && EqualsIgnoreCase
       (substring (length text - length suffix) (length suffix) text) suffix.

(** [string_view::find(needle, 0)]: the first position at which [needle]
    occurs, [None] for [npos]. *)
Fixpoint find (haystack needle : string) : option nat :=
  if (length needle <=? length haystack)%nat
     && (memcmp haystack needle (length needle) =? 0)
  then Some O
  else match haystack with
       | EmptyString => None
       | String _ rest => option_map S (find rest needle)
       end.

(** [absl::StrContains]: [haystack.find(needle, 0) != npos]. *)
Definition StrContains (haystack needle : string) : bool :=
  match find haystack needle with
  | Some _ => true
  | None => false
  end.

(** *** [absl::SimpleAtoi] for [int64_t]

    [SimpleAtoi] is [safe_strto64_base] in base 10: surrounding ASCII
    white space is dropped, one sign is accepted, every remaining byte
    has to be a decimal digit and the value has to fit [int64_t]. *)

Definition kint64max : Z := 9223372036854775807.
Definition kint64min : Z := -9223372036854775808.

(** [kAsciiToInt]: the value of a byte as a digit, [36] when it is none. *)
Definition kAsciiToInt (c : ascii) : Z :=
  let n := Z.of_N (N_of_ascii c) in
  if (48 <=? n) && (n <=? 57) then n - 48
  else if (97 <=? n) && (n <=? 122) then n - 97 + 10
  else if (65 <=? n) && (n <=? 90) then n - 65 + 10
  else 36.

(** First loop of [safe_parse_sign_and_base]: skip leading white space. *)
Fixpoint skip_leading_space (s : string) : string :=
  match s with
  | String c rest => if ascii_isspace c then skip_leading_space rest else s
  | EmptyString => EmptyString
  end.

(** Second loop of [safe_parse_sign_and_base]: move [end] back over
    trailing white space. *)
Fixpoint skip_trailing_space (s : string) : string :=
  match s with
  | EmptyString => EmptyString
  | String c rest =>
      match skip_trailing_space rest with
      | EmptyString => if ascii_isspace c then EmptyString
                       else String c EmptyString
      | kept => String c kept
      end
  end.

(** [safe_parse_sign_and_base] with [base = 10]: the text between the
    white space without its sign, and whether the sign was ['-']. *)
Definition safe_parse_sign_and_base (text : string) : option (string * bool) :=
  match skip_trailing_space (skip_leading_space text) with
  | EmptyString => None
  | String c rest =>
      let negative := Ascii.eqb c "-" in
      if negative || Ascii.eqb c "+" then
        match rest with
        | EmptyString => None
        | String _ _ => Some (rest, negative)
        end
      else Some (String c rest, negative)
  end.

(** The digit loop of [safe_parse_positive_int], [value] being the
    accumulator; the result pairs the returned flag with [*value_p]. *)
Fixpoint positive_loop (base value : Z) (text : string) : bool * Z :=
  match text with
  | EmptyString => (true, value)
  | String c rest =>
      let digit := kAsciiToInt c in
      if digit >=? base then (false, value)
      else if value >? Z.quot kint64max base then (false, kint64max)
      else let value := value * base in
           if value >? kint64max - digit then (false, kint64max)
           else positive_loop base (value + digit) rest
  end.

Definition safe_parse_positive_int (text : string) (base : Z) : bool * Z :=
  positive_loop base 0 text.

(** The digit loop of [safe_parse_negative_int]. *)
Fixpoint negative_loop (base vmin_over_base value : Z) (text : string)
  : bool * Z :=
  match text with
  | EmptyString => (true, value)
  | String c rest =>
      let digit := kAsciiToInt c in
      if digit >=? base then (false, value)
      else if value <? vmin_over_base then (false, kint64min)
      else let value := value * base in
           if value <? kint64min + digit then (false, kint64min)
           else negative_loop base vmin_over_base (value - digit) rest
  end.

Definition safe_parse_negative_int (text : string) (base : Z) : bool * Z :=
  let vmin_over_base := Z.quot kint64min base in
  let vmin_over_base :=
    if Z.rem kint64min base >? 0 then vmin_over_base + 1 else vmin_over_base in
  negative_loop base vmin_over_base 0 text.

(** [safe_strto64_base(text, value, 10)]. *)
Definition safe_strto64_base10 (text : string) : bool * Z :=
  match safe_parse_sign_and_base text with
  | None => (false, 0)
  | Some (digits, false) => safe_parse_positive_int digits 10
  | Some (digits, true) => safe_parse_negative_int digits 10
  end.

(** [absl::SimpleAtoi(str, &out)] at [int64_t]: the returned flag and the
    value left in [out]. *)
Definition SimpleAtoi (str : string) : bool * Z :=
  safe_strto64_base10 str.

(** [absl::StrFormat]'s [%d] for an [int64_t]. *)
Definition FormatInt (n : Z) : string :=
  NilZero.string_of_int (Z.to_int n).

End Absl.

(** ** The regular-expression engine

    [RE2] is a third-party library.  The matchers use four things of it:
    the constructor [RE2(pattern, options)] with [case_sensitive] set in
    the options, [ok()], [pattern()] and the static [RE2::FullMatch].
    They are collected in a class, so that whatever is proved about the
    matchers without looking inside the engine holds for every engine. *)

Class RE2Engine : Type := {
  RE2 : Type;
  (** [RE2(pattern, options)] after [options.set_case_sensitive(cs)] *)
  RE2_new : string -> bool -> RE2;
  (** [ok()]: the pattern compiled *)
  RE2_ok : RE2 -> bool;
  (** [pattern()]: the text the object was built from *)
  RE2_pattern : RE2 -> string;
  (** [RE2::FullMatch(text, re)] *)
  RE2_FullMatch : string -> RE2 -> bool;
  RE2_pattern_new : forall p cs, RE2_pattern (RE2_new p cs) = p
}.

(** *** A fragment of the RE2 syntax, and an engine for it

    [RefRE2] gives the standard meaning to the short patterns made of
    ASCII literals, groups [( )], alternation [|] and one of the
    repetition operators [*], [+], [?] per atom, as RE2 reads them: a
    pattern is an alternation of concatenations, an empty alternative
    matches the empty text, and case-insensitive literals match both
    cases (for [k] and [s] also the Kelvin sign and the long s of Unicode
    simple folding, in UTF-8).  Nothing is said about any other pattern
    (classes, escapes, anchors, counted and non-greedy repetition, flags,
    bytes above 127, syntax errors, long patterns): [parse] answers
    [None] for it, and the engine [over] hands it to another engine,
    whatever that one does with it. *)

Module RefRE2.

(** The operators of RE2's [Regexp] that the fragment produces;
    [Literal] is one byte. *)
Inductive Regexp : Type :=
| NoMatch
| EmptyMatch
| Literal (c : ascii)
| Concat (r1 r2 : Regexp)
| Alternate (r1 r2 : Regexp)
| Star (r : Regexp)
| Plus (r : Regexp)
| Quest (r : Regexp).

(** The texts a [Regexp] matches in full. *)
Inductive Matches : Regexp -> string -> Prop :=
| MEmpty : Matches EmptyMatch ""
| MLiteral c : Matches (Literal c) (String c "")
| MConcat r1 r2 s1 s2 :
    Matches r1 s1 -> Matches r2 s2 -> Matches (Concat r1 r2) (s1 ++ s2)
| MAlternateL r1 r2 s : Matches r1 s -> Matches (Alternate r1 r2) s
| MAlternateR r1 r2 s : Matches r2 s -> Matches (Alternate r1 r2) s
| MStarNil r : Matches (Star r) ""
| MStarMore r s1 s2 :
    Matches r s1 -> Matches (Star r) s2 -> Matches (Star r) (s1 ++ s2)
| MPlus r s1 s2 :
    Matches r s1 -> Matches (Star r) s2 -> Matches (Plus r) (s1 ++ s2)
| MQuestNil r : Matches (Quest r) ""
| MQuestOne r s : Matches r s -> Matches (Quest r) s.

(** [text] has a piece that [r] matches: what an unanchored search would
    accept. *)
Definition MatchesSomewhere (r : Regexp) (text : string) : Prop :=
  exists before piece after,
    text = before ++ piece ++ after /\ Matches r piece.

(** **** Parsing *)

Definition is_meta (c : ascii) : bool :=
  existsb (Ascii.eqb c)
    (list_ascii_of_string "\.+*?()|[]{}^$").

(** A literal of the pattern under the case option. *)
Definition literal (case_sensitive : bool) (c : ascii) : Regexp :=
  let low := Absl.ascii_tolower c in
  let up := ascii_of_N (N_of_ascii low - 32) in
  let bytes (l : list N) :=
    fold_right (fun b r => Concat (Literal (ascii_of_N b)) r) EmptyMatch l in
  if case_sensitive then Literal c
  else if ((97 <=? N_of_ascii low) && (N_of_ascii low <=? 122))%N then
    let both := Alternate (Literal low) (Literal up) in
    if Ascii.eqb low "k" then Alternate both (bytes [226; 132; 170]%N)
    else if Ascii.eqb low "s" then Alternate both (bytes [197; 191]%N)
    else both
  else Literal c.

(** One level of the parse stack: the alternatives closed by [|] so far,
    the atoms of the concatenation being read (last one first) and
    whether the last atom already carries a repetition operator. *)
Record Frame : Type := {
  alternatives : option Regexp;
  atoms : list Regexp;
  repeated : bool
}.

Definition empty_frame : Frame :=
  {| alternatives := None; atoms := []; repeated := false |}.

Definition concat_of (rev_atoms : list Regexp) : Regexp :=
  fold_left (fun acc r => Concat r acc) rev_atoms EmptyMatch.

Definition close (f : Frame) : Regexp :=
  match alternatives f with
  | None => concat_of (atoms f)
  | Some a => Alternate a (concat_of (atoms f))
  end.

Definition push_atom (f : Frame) (r : Regexp) : Frame :=
  {| alternatives := alternatives f; atoms := r :: atoms f;
     repeated := false |}.

Definition repeat (op : Regexp -> Regexp) (f : Frame) : option Frame :=
  match atoms f with
  | [] => None
  | last :: before =>
      if repeated f then None
      else Some {| alternatives := alternatives f;
                   atoms := op last :: before; repeated := true |}
  end.

Fixpoint parse_loop (case_sensitive : bool) (stack : list Frame)
    (cur : Frame) (pattern : string) : option Regexp :=
  match pattern with
  | EmptyString =>
      match stack with
      | [] => Some (close cur)
      | _ :: _ => None
      end
  | String c rest =>
      if Ascii.eqb c "(" then
        parse_loop case_sensitive (cur :: stack) empty_frame rest
      else if Ascii.eqb c ")" then
        match stack with
        | [] => None
        | parent :: below =>
            parse_loop case_sensitive below (push_atom parent (close cur)) rest
        end
      else if Ascii.eqb c "|" then
        parse_loop case_sensitive stack
          {| alternatives := Some (close cur); atoms := [];
             repeated := false |} rest
      else if Ascii.eqb c "*" then
        f <- repeat Star cur ;; parse_loop case_sensitive stack f rest
      else if Ascii.eqb c "+" then
        f <- repeat Plus cur ;; parse_loop case_sensitive stack f rest
      else if Ascii.eqb c "?" then
        f <- repeat Quest cur ;; parse_loop case_sensitive stack f rest
      else if is_meta c || (128 <=? N_of_ascii c)%N then None
      else parse_loop case_sensitive stack
             (push_atom cur (literal case_sensitive c)) rest
  end.

(** RE2 refuses a pattern whose program exceeds its memory budget; the
    fragment keeps to patterns far below it. *)
Definition max_length : nat := 100.

(** The expression of a pattern of the fragment; [None] for a pattern
    that is not in the fragment. *)
Definition parse (pattern : string) (case_sensitive : bool) : option Regexp :=
  if (length pattern <=? max_length)%nat
  then parse_loop case_sensitive [] empty_frame pattern
  else None.

(** **** Matching by derivatives *)

Fixpoint nullable (r : Regexp) : bool :=
  match r with
  | NoMatch => false
  | EmptyMatch => true
  | Literal _ => false
  | Concat r1 r2 => nullable r1 && nullable r2
  | Alternate r1 r2 => nullable r1 || nullable r2
  | Star _ => true
  | Plus r1 => nullable r1
  | Quest _ => true
  end.

Fixpoint derive (c : ascii) (r : Regexp) : Regexp :=
  match r with
  | NoMatch => NoMatch
  | EmptyMatch => NoMatch
  | Literal x => if Ascii.eqb x c then EmptyMatch else NoMatch
  | Concat r1 r2 =>
      if nullable r1
      then Alternate (Concat (derive c r1) r2) (derive c r2)
      else Concat (derive c r1) r2
  | Alternate r1 r2 => Alternate (derive c r1) (derive c r2)
  | Star r1 => Concat (derive c r1) (Star r1)
  | Plus r1 => Concat (derive c r1) (Star r1)
  | Quest r1 => derive c r1
  end.

Fixpoint full_match (r : Regexp) (text : string) : bool :=
  match text with
  | EmptyString => nullable r
  | String c rest => full_match (derive c r) rest
  end.

(** **** The engine

    [over rest] is the engine that compiles and matches the patterns of
    the fragment itself and leaves every other pattern to [rest]. *)

Section Over.
Variable rest : RE2Engine.

Inductive Compiled : Type :=
| InFragment (pattern : string) (prog : Regexp)
| Elsewhere (re : @RE2 rest).

Definition new (pattern : string) (case_sensitive : bool) : Compiled :=
  match parse pattern case_sensitive with
  | Some r => InFragment pattern r
  | None => Elsewhere (RE2_new pattern case_sensitive)
  end.

Definition is_ok (re : Compiled) : bool :=
  match re with
  | InFragment _ _ => true
  | Elsewhere re' => RE2_ok re'
  end.

Definition pattern_of (re : Compiled) : string :=
  match re with
  | InFragment pattern _ => pattern
  | Elsewhere re' => RE2_pattern re'
  end.

Definition FullMatch (text : string) (re : Compiled) : bool :=
  match re with
  | InFragment _ r => full_match r text
  | Elsewhere re' => RE2_FullMatch text re'
  end.

(** The pieces of a text that the compiled expression matches: bytes
    [i] to [j] of [text]; [rest_span] gives them for the patterns left
    to [rest]. *)
Definition span (rest_span : @RE2 rest -> string -> nat -> nat -> Prop)
    (re : Compiled) (text : string) (i j : nat) : Prop :=
  match re with
  | InFragment _ r =>
      (i <= j <= length text)%nat /\ Matches r (substring i (j - i) text)
  | Elsewhere re' => rest_span re' text i j
  end.

Definition over : RE2Engine := {|
  RE2 := Compiled;
  RE2_new := new;
  RE2_ok := is_ok;
  RE2_pattern := pattern_of;
  RE2_FullMatch := FullMatch;
  RE2_pattern_new := fun p cs =>
    match parse p cs as o
      return pattern_of
               match o with
               | Some r => InFragment p r
               | None => Elsewhere (RE2_new p cs)
               end = p
    with
    | Some _ => eq_refl
    | None => RE2_pattern_new p cs
    end
|}.

End Over.

(** The engine without any pattern, and the engine that knows the
    fragment and nothing else.  The latter serves to evaluate the
    properties at concrete matchers, whose patterns all lie in the
    fragment; outside the fragment it does not stand for RE2. *)
Definition nothing : RE2Engine := {|
  RE2 := string;
  RE2_new := fun pattern _ => pattern;
  RE2_ok := fun _ => false;
  RE2_pattern := fun pattern => pattern;
  RE2_FullMatch := fun _ _ => false;
  RE2_pattern_new := fun _ _ => eq_refl
|}.

#[export] Instance engine : RE2Engine := over nothing.

End RefRE2.

(** Modelled from the spec: RE2 is not among the sources.  The
    specification asks of the engine a full-string match, anchored at
    start and end, against the compiled expression.  [RE2_span re text i j]
    says that the expression matches the bytes [i] to [j] of [text];
    [RE2::FullMatch] succeeds exactly when the object is valid and the
    expression matches [text] from its first byte to its last; and on the
    fragment of [RefRE2] the pattern compiles and has the standard
    meaning. *)
Class RE2Contract (engine : RE2Engine) : Type := {
  RE2_span : RE2 -> string -> nat -> nat -> Prop;
  RE2_FullMatch_anchored : forall re text,
    RE2_FullMatch text re = true
    <-> RE2_ok re = true /\ RE2_span re text 0 (length text);
  RE2_fragment : forall pattern case_sensitive r,
    RefRE2.parse pattern case_sensitive = Some r ->
    RE2_ok (RE2_new pattern case_sensitive) = true
    /\ forall text i j,
         RE2_span (RE2_new pattern case_sensitive) text i j
         <-> (i <= j <= length text)%nat
             /\ RefRE2.Matches r (substring i (j - i) text)
}.

(** ** [StringMatcher] *)

Module StringMatcher.

(** Modelled from the spec: [enum class StringMatcher::Type] is declared
    in [matchers.h], which is not among the sources; the enumerators are
    the five kinds of the specification under the names the source uses,
    in the order of the comment in [HeaderMatcher::Create]. *)
Inductive Type_ : Type :=
| EXACT
| PREFIX
| SUFFIX
| SAFE_REGEX
| CONTAINS.

Definition Type_eqb (a b : Type_) : bool :=
  match a, b with
  | EXACT, EXACT | PREFIX, PREFIX | SUFFIX, SUFFIX
  | SAFE_REGEX, SAFE_REGEX | CONTAINS, CONTAINS => true
  | _, _ => false
  end.

(** [static_cast<StringMatcher::Type>(n)] for the value [n] of an
    enumerator; the source only casts values below 5. *)
Definition Type_of_int (n : Z) : Type_ :=
  if n =? 0 then EXACT
  else if n =? 1 then PREFIX
  else if n =? 2 then SUFFIX
  else if n =? 3 then SAFE_REGEX
  else CONTAINS.

Section WithEngine.
Context {engine : RE2Engine}.

(** The data members.  [regex_matcher_] is a [std::unique_ptr<RE2>]:
    [None] is the null pointer. *)
Record t : Type := {
  type_ : Type_;
  string_matcher_ : string;
  regex_matcher_ : option RE2;
  case_sensitive_ : bool
}.

(** [StringMatcher(Type, const std::string&, bool)]: [regex_matcher_] is
    default-initialised, hence null. *)
Definition from_string (type : Type_) (matcher : string)
    (case_sensitive : bool) : t :=
  {| type_ := type; string_matcher_ := matcher; regex_matcher_ := None;
     case_sensitive_ := case_sensitive |}.

(** [StringMatcher(std::unique_ptr<RE2>, bool)]: [string_matcher_] is
    default-initialised, hence empty. *)
Definition from_regex (regex_matcher : RE2) (case_sensitive : bool) : t :=
  {| type_ := SAFE_REGEX; string_matcher_ := "";
     regex_matcher_ := Some regex_matcher;
     case_sensitive_ := case_sensitive |}.

(** Modelled from the spec: the default constructor is declared in
    [matchers.h], which is not among the sources.  A [HeaderMatcher] of
    kind Range or Present holds such an object in [matcher_]; the
    specification says that the payload members of the other kinds hold
    no meaningful data, and no member function reads [matcher_] there. *)
Definition default : t :=
  {| type_ := EXACT; string_matcher_ := ""; regex_matcher_ := None;
     case_sensitive_ := true |}.

(** [StringMatcher::Create]. *)
Definition Create (type : Type_) (matcher : string) (case_sensitive : bool)
  : StatusOr t :=
  if Type_eqb type SAFE_REGEX then
    let regex_matcher := RE2_new matcher case_sensitive in
    if negb (RE2_ok regex_matcher) then
      NotOk (InvalidArgumentError "Invalid regex string specified in matcher.")
    else OkValue (from_regex regex_matcher case_sensitive)
  else OkValue (from_string type matcher case_sensitive).

(** [StringMatcher::operator==]. *)
Definition eq (self other : t) : option bool :=
  if negb (Type_eqb (type_ self) (type_ other))
     || negb (Bool.eqb (case_sensitive_ self) (case_sensitive_ other))
  then Some false
  else if Type_eqb (type_ self) SAFE_REGEX then
    r1 <- regex_matcher_ self ;;
    r2 <- regex_matcher_ other ;;
    Some (Absl.view_eq (RE2_pattern r1) (RE2_pattern r2))
  else Some (Absl.view_eq (string_matcher_ self) (string_matcher_ other)).

(** [StringMatcher::Match].  The [default:] label of the [switch] is not
    reached by an enumerator. *)
Definition Match (self : t) (value : string) : option bool :=
  match type_ self with
  | EXACT =>
      Some (if case_sensitive_ self
            then Absl.view_eq value (string_matcher_ self)
            else Absl.EqualsIgnoreCase value (string_matcher_ self))
  | PREFIX =>
      Some (if case_sensitive_ self
            then Absl.StartsWith value (string_matcher_ self)
            else Absl.StartsWithIgnoreCase value (string_matcher_ self))
  | SUFFIX =>
      Some (if case_sensitive_ self
            then Absl.EndsWith value (string_matcher_ self)
            else Absl.EndsWithIgnoreCase value (string_matcher_ self))
  | CONTAINS =>
      Some (if case_sensitive_ self
            then Absl.StrContains value (string_matcher_ self)
            else Absl.StrContains (Absl.AsciiStrToLower value)
                   (Absl.AsciiStrToLower (string_matcher_ self)))
  | SAFE_REGEX =>
      r <- regex_matcher_ self ;;
      Some (RE2_FullMatch value r)
  end.

(** The second [%s] of the format strings of [ToString]. *)
Definition case_suffix (self : t) : string :=
  if case_sensitive_ self then "" else ", case_sensitive=false".

(** [StringMatcher::ToString]. *)
Definition ToString (self : t) : option string :=
  match type_ self with
  | EXACT =>
      Some ("StringMatcher{exact=" ++ string_matcher_ self
            ++ case_suffix self ++ "}")
  | PREFIX =>
      Some ("StringMatcher{prefix=" ++ string_matcher_ self
            ++ case_suffix self ++ "}")
  | SUFFIX =>
      Some ("StringMatcher{suffix=" ++ string_matcher_ self
            ++ case_suffix self ++ "}")
  | CONTAINS =>
      Some ("StringMatcher{contains=" ++ string_matcher_ self
            ++ case_suffix self ++ "}")
  | SAFE_REGEX =>
      r <- regex_matcher_ self ;;
      Some ("StringMatcher{safe_regex=" ++ RE2_pattern r
            ++ case_suffix self ++ "}")
  end.

(** [StringMatcher(const StringMatcher& other)]: the members the
    initialiser list and the body leave out are default-initialised. *)
Definition copy_construct (other : t) : option t :=
  if Type_eqb (type_ other) SAFE_REGEX then
    r <- regex_matcher_ other ;;
    Some {| type_ := type_ other;
            string_matcher_ := "";
            regex_matcher_ :=
              Some (RE2_new (RE2_pattern r) (case_sensitive_ other));
            case_sensitive_ := case_sensitive_ other |}
  else
    Some {| type_ := type_ other;
            string_matcher_ := string_matcher_ other;
            regex_matcher_ := None;
            case_sensitive_ := case_sensitive_ other |}.

(** [operator=(const StringMatcher& other)]: the member of [self] that
    the branch taken does not assign keeps what it held. *)
Definition copy_assign (self other : t) : option t :=
  if Type_eqb (type_ other) SAFE_REGEX then
    r <- regex_matcher_ other ;;
    Some {| type_ := type_ other;
            string_matcher_ := string_matcher_ self;
            regex_matcher_ :=
              Some (RE2_new (RE2_pattern r) (case_sensitive_ other));
            case_sensitive_ := case_sensitive_ other |}
  else
    Some {| type_ := type_ other;
            string_matcher_ := string_matcher_ other;
            regex_matcher_ := regex_matcher_ self;
            case_sensitive_ := case_sensitive_ other |}.

(** [StringMatcher(StringMatcher&& other)]: the object built and what is
    left of [other].  A [std::unique_ptr] that was moved from is null; a
    [std::string] that was moved from holds an unspecified value, here
    [leftover]. *)
Definition move_construct (leftover : string) (other : t) : t * t :=
  if Type_eqb (type_ other) SAFE_REGEX then
    ({| type_ := type_ other;
        string_matcher_ := "";
        regex_matcher_ := regex_matcher_ other;
        case_sensitive_ := case_sensitive_ other |},
     {| type_ := type_ other;
        string_matcher_ := string_matcher_ other;
        regex_matcher_ := None;
        case_sensitive_ := case_sensitive_ other |})
  else
    ({| type_ := type_ other;
        string_matcher_ := string_matcher_ other;
        regex_matcher_ := None;
        case_sensitive_ := case_sensitive_ other |},
     {| type_ := type_ other;
        string_matcher_ := leftover;
        regex_matcher_ := regex_matcher_ other;
        case_sensitive_ := case_sensitive_ other |}).

(** [operator=(StringMatcher&& other)] for two distinct objects: [self]
    afterwards and what is left of [other]. *)
Definition move_assign (leftover : string) (self other : t) : t * t :=
  if Type_eqb (type_ other) SAFE_REGEX then
    ({| type_ := type_ other;
        string_matcher_ := string_matcher_ self;
        regex_matcher_ := regex_matcher_ other;
        case_sensitive_ := case_sensitive_ other |},
     {| type_ := type_ other;
        string_matcher_ := string_matcher_ other;
        regex_matcher_ := None;
        case_sensitive_ := case_sensitive_ other |})
  else
    ({| type_ := type_ other;
        string_matcher_ := string_matcher_ other;
        regex_matcher_ := regex_matcher_ self;
        case_sensitive_ := case_sensitive_ other |},
     {| type_ := type_ other;
        string_matcher_ := leftover;
        regex_matcher_ := regex_matcher_ other;
        case_sensitive_ := case_sensitive_ other |}).


End WithEngine.

Arguments t {engine}.

End StringMatcher.

(** ** [HeaderMatcher] *)

Module HeaderMatcher.

(** Modelled from the spec: [enum class HeaderMatcher::Type] is declared
    in [matchers.h], which is not among the sources; it has the five kinds
    of [StringMatcher::Type] with the same values, then Range and
    Present. *)
Inductive Type_ : Type :=
| EXACT
| PREFIX
| SUFFIX
| SAFE_REGEX
| CONTAINS
| RANGE
| PRESENT.

Definition Type_eqb (a b : Type_) : bool :=
  match a, b with
  | EXACT, EXACT | PREFIX, PREFIX | SUFFIX, SUFFIX
  | SAFE_REGEX, SAFE_REGEX | CONTAINS, CONTAINS
  | RANGE, RANGE | PRESENT, PRESENT => true
  | _, _ => false
  end.

(** [static_cast<int>(type)]. *)
Definition to_int (type : Type_) : Z :=
  match type with
  | EXACT => 0
  | PREFIX => 1
  | SUFFIX => 2
  | SAFE_REGEX => 3
  | CONTAINS => 4
  | RANGE => 5
  | PRESENT => 6
  end.

Section WithEngine.
Context {engine : RE2Engine}.

(** The data members.  [range_start_], [range_end_] and [present_match_]
    are scalars that only one of the three constructors sets: [None] is a
    member that was never written. *)
Record t : Type := {
  name_ : string;
  type_ : Type_;
  matcher_ : StringMatcher.t;
  range_start_ : option Z;
  range_end_ : option Z;
  present_match_ : option bool;
  invert_match_ : bool
}.

(** [HeaderMatcher(name, type, string_matcher, invert_match)]. *)
Definition from_string_matcher (name : string) (type : Type_)
    (string_matcher : StringMatcher.t) (invert_match : bool) : t :=
  {| name_ := name; type_ := type; matcher_ := string_matcher;
     range_start_ := None; range_end_ := None; present_match_ := None;
     invert_match_ := invert_match |}.

(** [HeaderMatcher(name, range_start, range_end, invert_match)]. *)
Definition from_range (name : string) (range_start range_end : Z)
    (invert_match : bool) : t :=
  {| name_ := name; type_ := RANGE; matcher_ := StringMatcher.default;
     range_start_ := Some range_start; range_end_ := Some range_end;
     present_match_ := None; invert_match_ := invert_match |}.

(** [HeaderMatcher(name, present_match, invert_match)]. *)
Definition from_present (name : string) (present_match invert_match : bool)
  : t :=
  {| name_ := name; type_ := PRESENT; matcher_ := StringMatcher.default;
     range_start_ := None; range_end_ := None;
     present_match_ := Some present_match; invert_match_ := invert_match |}.

(** [HeaderMatcher::Create]. *)
Definition Create (name : string) (type : Type_) (matcher : string)
    (range_start range_end : Z) (present_match invert_match : bool)
  : StatusOr t :=
  if to_int type <? 5 then
    match StringMatcher.Create (StringMatcher.Type_of_int (to_int type))
            matcher true with
    | NotOk status => NotOk status
    | OkValue string_matcher =>
        OkValue (from_string_matcher name type string_matcher invert_match)
    end
  else if Type_eqb type RANGE then
    if range_start >? range_end then
      NotOk (InvalidArgumentError
        "Invalid range specifier specified: end cannot be smaller than start.")
    else OkValue (from_range name range_start range_end invert_match)
  else OkValue (from_present name present_match invert_match).

(** [absl::optional::has_value]. *)
Definition has_value {A : Type} (value : option A) : bool :=
  match value with
  | Some _ => true
  | None => false
  end.

(** [HeaderMatcher::operator==]. *)
Definition eq (self other : t) : option bool :=
  if negb (Absl.view_eq (name_ self) (name_ other)) then Some false
  else if negb (Type_eqb (type_ self) (type_ other)) then Some false
  else if negb (Bool.eqb (invert_match_ self) (invert_match_ other))
  then Some false
  else match type_ self with
       | RANGE =>
           s1 <- range_start_ self ;;
           s2 <- range_start_ other ;;
           if s1 =? s2 then
             e1 <- range_end_ self ;;
             e2 <- range_end_ other ;;
             Some (e1 =? e2)
           else Some false
       | PRESENT =>
           p1 <- present_match_ self ;;
           p2 <- present_match_ other ;;
           Some (Bool.eqb p1 p2)
       | _ => StringMatcher.eq (matcher_ self) (matcher_ other)
       end.

(** [HeaderMatcher::Match]; [value] is the [absl::optional] argument, the
    outer [option] of the result is explained at [bind_ub]. *)
Definition Match (self : t) (value : option string) : option bool :=
  match_ <-
    (if Type_eqb (type_ self) PRESENT then
       present_match <- present_match_ self ;;
       Some (Bool.eqb (has_value value) present_match)
     else match value with
          | None => Some false
          | Some text =>
              if Type_eqb (type_ self) RANGE then
                let (parsed, int_value) := Absl.SimpleAtoi text in
                if parsed then
                  range_start <- range_start_ self ;;
                  if int_value >=? range_start then
                    range_end <- range_end_ self ;;
                    Some (int_value <? range_end)
                  else Some false
                else Some false
              else StringMatcher.Match (matcher_ self) text
          end) ;;
  Some (negb (Bool.eqb match_ (invert_match_ self))).

(** The [%s] of the format strings of [ToString] that [invert_match_]
    fills. *)
Definition not_prefix (self : t) : string :=
  if invert_match_ self then "not " else "".

(** [HeaderMatcher::ToString]. *)
Definition ToString (self : t) : option string :=
  match type_ self with
  | RANGE =>
      range_start <- range_start_ self ;;
      range_end <- range_end_ self ;;
      Some ("HeaderMatcher{" ++ name_ self ++ " " ++ not_prefix self
            ++ "range=[" ++ Absl.FormatInt range_start ++ ", "
            ++ Absl.FormatInt range_end ++ "]}")
  | PRESENT =>
      present_match <- present_match_ self ;;
      Some ("HeaderMatcher{" ++ name_ self ++ " " ++ not_prefix self
            ++ "present=" ++ (if present_match then "true" else "false")
            ++ "}")
  | EXACT | PREFIX | SUFFIX | SAFE_REGEX | CONTAINS =>
      inner <- StringMatcher.ToString (matcher_ self) ;;
      Some ("HeaderMatcher{" ++ name_ self ++ " " ++ not_prefix self
            ++ inner ++ "}")
  end.

(** [HeaderMatcher(const HeaderMatcher& other)]: [matcher_] is first
    default-constructed, and in the [default:] branch assigned with
    [StringMatcher::operator=]; the scalars of the other kinds stay
    unwritten. *)
Definition copy_construct (other : t) : option t :=
  match type_ other with
  | RANGE =>
      range_start <- range_start_ other ;;
      range_end <- range_end_ other ;;
      Some {| name_ := name_ other; type_ := type_ other;
              matcher_ := StringMatcher.default;
              range_start_ := Some range_start;
              range_end_ := Some range_end;
              present_match_ := None;
              invert_match_ := invert_match_ other |}
  | PRESENT =>
      present_match <- present_match_ other ;;
      Some {| name_ := name_ other; type_ := type_ other;
              matcher_ := StringMatcher.default;
              range_start_ := None; range_end_ := None;
              present_match_ := Some present_match;
              invert_match_ := invert_match_ other |}
  | _ =>
      matcher <- StringMatcher.copy_assign StringMatcher.default
                   (matcher_ other) ;;
      Some {| name_ := name_ other; type_ := type_ other;
              matcher_ := matcher;
              range_start_ := None; range_end_ := None;
              present_match_ := None;
              invert_match_ := invert_match_ other |}
  end.

(** [operator=(const HeaderMatcher& other)]: the members of [self] that
    the branch taken does not assign keep what they held. *)
Definition copy_assign (self other : t) : option t :=
  match type_ other with
  | RANGE =>
      range_start <- range_start_ other ;;
      range_end <- range_end_ other ;;
      Some {| name_ := name_ other; type_ := type_ other;
              matcher_ := matcher_ self;
              range_start_ := Some range_start;
              range_end_ := Some range_end;
              present_match_ := present_match_ self;
              invert_match_ := invert_match_ other |}
  | PRESENT =>
      present_match <- present_match_ other ;;
      Some {| name_ := name_ other; type_ := type_ other;
              matcher_ := matcher_ self;
              range_start_ := range_start_ self;
              range_end_ := range_end_ self;
              present_match_ := Some present_match;
              invert_match_ := invert_match_ other |}
  | _ =>
      matcher <- StringMatcher.copy_assign (matcher_ self)
                   (matcher_ other) ;;
      Some {| name_ := name_ other; type_ := type_ other;
              matcher_ := matcher;
              range_start_ := range_start_ self;
              range_end_ := range_end_ self;
              present_match_ := present_match_ self;
              invert_match_ := invert_match_ other |}
  end.

(** [HeaderMatcher(HeaderMatcher&& other)]: the object built and what is
    left of [other]; [leftover_name] and [leftover_matcher] are the
    unspecified values of the two strings that were moved from. *)
Definition move_construct (leftover_name leftover_matcher : string)
    (other : t) : option (t * t) :=
  match type_ other with
  | RANGE =>
      range_start <- range_start_ other ;;
      range_end <- range_end_ other ;;
      Some ({| name_ := name_ other; type_ := type_ other;
               matcher_ := StringMatcher.default;
               range_start_ := Some range_start;
               range_end_ := Some range_end;
               present_match_ := None;
               invert_match_ := invert_match_ other |},
            {| name_ := leftover_name; type_ := type_ other;
               matcher_ := matcher_ other;
               range_start_ := range_start_ other;
               range_end_ := range_end_ other;
               present_match_ := present_match_ other;
               invert_match_ := invert_match_ other |})
  | PRESENT =>
      present_match <- present_match_ other ;;
      Some ({| name_ := name_ other; type_ := type_ other;
               matcher_ := StringMatcher.default;
               range_start_ := None; range_end_ := None;
               present_match_ := Some present_match;
               invert_match_ := invert_match_ other |},
            {| name_ := leftover_name; type_ := type_ other;
               matcher_ := matcher_ other;
               range_start_ := range_start_ other;
               range_end_ := range_end_ other;
               present_match_ := present_match_ other;
               invert_match_ := invert_match_ other |})
  | _ =>
      let (matcher, left) :=
        StringMatcher.move_assign leftover_matcher StringMatcher.default
          (matcher_ other) in
      Some ({| name_ := name_ other; type_ := type_ other;
               matcher_ := matcher;
               range_start_ := None; range_end_ := None;
               present_match_ := None;
               invert_match_ := invert_match_ other |},
            {| name_ := leftover_name; type_ := type_ other;
               matcher_ := left;
               range_start_ := range_start_ other;
               range_end_ := range_end_ other;
               present_match_ := present_match_ other;
               invert_match_ := invert_match_ other |})
  end.

(** [operator=(HeaderMatcher&& other)] for two distinct objects: [self]
    afterwards and what is left of [other]. *)
Definition move_assign (leftover_name leftover_matcher : string)
    (self other : t) : option (t * t) :=
  match type_ other with
  | RANGE =>
      range_start <- range_start_ other ;;
      range_end <- range_end_ other ;;
      Some ({| name_ := name_ other; type_ := type_ other;
               matcher_ := matcher_ self;
               range_start_ := Some range_start;
               range_end_ := Some range_end;
               present_match_ := present_match_ self;
               invert_match_ := invert_match_ other |},
            {| name_ := leftover_name; type_ := type_ other;
               matcher_ := matcher_ other;
               range_start_ := range_start_ other;
               range_end_ := range_end_ other;
               present_match_ := present_match_ other;
               invert_match_ := invert_match_ other |})
  | PRESENT =>
      present_match <- present_match_ other ;;
      Some ({| name_ := name_ other; type_ := type_ other;
               matcher_ := matcher_ self;
               range_start_ := range_start_ self;
               range_end_ := range_end_ self;
               present_match_ := Some present_match;
               invert_match_ := invert_match_ other |},
            {| name_ := leftover_name; type_ := type_ other;
               matcher_ := matcher_ other;
               range_start_ := range_start_ other;
               range_end_ := range_end_ other;
               present_match_ := present_match_ other;
               invert_match_ := invert_match_ other |})
  | _ =>
      let (matcher, left) :=
        StringMatcher.move_assign leftover_matcher (matcher_ self)
          (matcher_ other) in
      Some ({| name_ := name_ other; type_ := type_ other;
               matcher_ := matcher;
               range_start_ := range_start_ self;
               range_end_ := range_end_ self;
               present_match_ := present_match_ self;
               invert_match_ := invert_match_ other |},
            {| name_ := leftover_name; type_ := type_ other;
               matcher_ := left;
               range_start_ := range_start_ other;
               range_end_ := range_end_ other;
               present_match_ := present_match_ other;
               invert_match_ := invert_match_ other |})
  end.


End WithEngine.

Arguments t {engine}.

End HeaderMatcher.

(** ** Reference notions the properties are stated with *)

(** What the documentation of [SimpleAtoi] calls a base-10 integer that
    fits the type: optional white space, an optional sign, at least one
    decimal digit and nothing else, white space again; [n] is its value
    and lies in the range of [int64_t]. *)
Module Decimal.

Fixpoint all_space (s : string) : bool :=
  match s with
  | EmptyString => true
  | String c rest => Absl.ascii_isspace c && all_space rest
  end.

Definition is_digit (c : ascii) : bool :=
  let n := N_of_ascii c in ((48 <=? n) && (n <=? 57))%N.

Fixpoint all_digits (s : string) : bool :=
  match s with
  | EmptyString => true
  | String c rest => is_digit c && all_digits rest
  end.

(** The number a string of digits denotes, read after the digits [acc]
    stands for. *)
Fixpoint value_from (acc : Z) (s : string) : Z :=
  match s with
  | EmptyString => acc
  | String c rest => value_from (10 * acc + (Z.of_N (N_of_ascii c) - 48)) rest
  end.

Definition value (digits : string) : Z := value_from 0 digits.

Inductive Sign : string -> bool -> Prop :=
| SignNone : Sign "" false
| SignPlus : Sign "+" false
| SignMinus : Sign "-" true.

Inductive Int64 : string -> Z -> Prop :=
| Int64_intro before sign negative digits after n :
    all_space before = true ->
    Sign sign negative ->
    digits <> "" ->
    all_digits digits = true ->
    all_space after = true ->
    n = (if negative then - value digits else value digits) ->
    Absl.kint64min <= n <= Absl.kint64max ->
    Int64 (before ++ sign ++ digits ++ after) n.

End Decimal.

(** The kind of [StringMatcher] a shared kind of [HeaderMatcher] stands
    for. *)
Definition shared_kind (type : HeaderMatcher.Type_)
  : option StringMatcher.Type_ :=
  match type with
  | HeaderMatcher.EXACT => Some StringMatcher.EXACT
  | HeaderMatcher.PREFIX => Some StringMatcher.PREFIX
  | HeaderMatcher.SUFFIX => Some StringMatcher.SUFFIX
  | HeaderMatcher.SAFE_REGEX => Some StringMatcher.SAFE_REGEX
  | HeaderMatcher.CONTAINS => Some StringMatcher.CONTAINS
  | HeaderMatcher.RANGE | HeaderMatcher.PRESENT => None
  end.

(** Capital and small E with acute accent, in UTF-8 and in Latin-1. *)
Definition E_acute_utf8 : string :=
  String (ascii_of_N 195) (String (ascii_of_N 137) "").
Definition e_acute_utf8 : string :=
  String (ascii_of_N 195) (String (ascii_of_N 169) "").
Definition E_acute_latin1 : string := String (ascii_of_N 201) "".
Definition e_acute_latin1 : string := String (ascii_of_N 233) "".

Section Notions.
Context {engine : RE2Engine}.

(** What [Create] establishes: the regular expression is there exactly
    for the kind that uses it. *)
Definition string_matcher_built (sm : StringMatcher.t) : Prop :=
  StringMatcher.type_ sm = StringMatcher.SAFE_REGEX ->
  exists r, StringMatcher.regex_matcher_ sm = Some r.

(** Equality as the specification words it: same kind, same flags, same
    payload, the payload of a pattern being its source text. *)
Definition string_matcher_same (a b : StringMatcher.t) : Prop :=
  StringMatcher.type_ a = StringMatcher.type_ b
  /\ StringMatcher.case_sensitive_ a = StringMatcher.case_sensitive_ b
  /\ match StringMatcher.type_ a with
     | StringMatcher.SAFE_REGEX =>
         exists r1 r2,
           StringMatcher.regex_matcher_ a = Some r1
           /\ StringMatcher.regex_matcher_ b = Some r2
           /\ RE2_pattern r1 = RE2_pattern r2
     | _ => StringMatcher.string_matcher_ a = StringMatcher.string_matcher_ b
     end.

Definition header_matcher_same (a b : HeaderMatcher.t) : Prop :=
  HeaderMatcher.name_ a = HeaderMatcher.name_ b
  /\ HeaderMatcher.type_ a = HeaderMatcher.type_ b
  /\ HeaderMatcher.invert_match_ a = HeaderMatcher.invert_match_ b
  /\ match HeaderMatcher.type_ a with
     | HeaderMatcher.RANGE =>
         exists range_start range_end,
           HeaderMatcher.range_start_ a = Some range_start
           /\ HeaderMatcher.range_start_ b = Some range_start
           /\ HeaderMatcher.range_end_ a = Some range_end
           /\ HeaderMatcher.range_end_ b = Some range_end
     | HeaderMatcher.PRESENT =>
         exists present_match,
           HeaderMatcher.present_match_ a = Some present_match
           /\ HeaderMatcher.present_match_ b = Some present_match
     | _ => string_matcher_same (HeaderMatcher.matcher_ a)
              (HeaderMatcher.matcher_ b)
     end.

(** The rendering of a Range payload the specification describes, with
    its name and inversion prefix: a half-open interval. *)
Definition half_open_range_text (hm : HeaderMatcher.t)
    (range_start range_end : Z) : string :=
  HeaderMatcher.name_ hm ++ " " ++ HeaderMatcher.not_prefix hm
  ++ "range=[" ++ Absl.FormatInt range_start ++ ", "
  ++ Absl.FormatInt range_end ++ ")".

End Notions.

(** Matchers the properties are tried on, with the reference engine. *)
Definition inverted_exact_a : HeaderMatcher.t (engine := RefRE2.engine) :=
  HeaderMatcher.from_string_matcher "x" HeaderMatcher.EXACT
    (StringMatcher.from_string StringMatcher.EXACT "a" true) true.

Definition age_10_20 : HeaderMatcher.t (engine := RefRE2.engine) :=
  HeaderMatcher.from_range "age" 10 20 false.

Section MoreNotions.
Context {engine : RE2Engine}.

(** The matchers [Create] returns. *)
Definition string_matcher_created (sm : StringMatcher.t) : Prop :=
  exists type matcher case_sensitive,
    StringMatcher.Create type matcher case_sensitive = OkValue sm.

Definition header_matcher_created (hm : HeaderMatcher.t) : Prop :=
  exists name type matcher range_start range_end present_match invert_match,
    HeaderMatcher.Create name type matcher range_start range_end
      present_match invert_match = OkValue hm.

(** What the member functions of a [HeaderMatcher] rely on: the payload
    of its kind is there, and for a range the start does not exceed the
    end. *)
Definition header_well_formed (hm : HeaderMatcher.t) : Prop :=
  match HeaderMatcher.type_ hm with
  | HeaderMatcher.RANGE =>
      exists range_start range_end,
        HeaderMatcher.range_start_ hm = Some range_start
        /\ HeaderMatcher.range_end_ hm = Some range_end
        /\ range_start <= range_end
  | HeaderMatcher.PRESENT =>
      exists present_match,
        HeaderMatcher.present_match_ hm = Some present_match
  | _ =>
      shared_kind (HeaderMatcher.type_ hm)
      = Some (StringMatcher.type_ (HeaderMatcher.matcher_ hm))
      /\ string_matcher_built (HeaderMatcher.matcher_ hm)
      /\ StringMatcher.case_sensitive_ (HeaderMatcher.matcher_ hm) = true
  end.

(** Two matchers no member function tells apart: they are equal, print
    alike and give the same answer on every value. *)
Definition string_matcher_alike (a b : StringMatcher.t) : Prop :=
  StringMatcher.eq a b = Some true
  /\ (exists s, StringMatcher.ToString a = Some s
                /\ StringMatcher.ToString b = Some s)
  /\ forall v, exists r,
       StringMatcher.Match a v = Some r /\ StringMatcher.Match b v = Some r.

Definition header_matcher_alike (a b : HeaderMatcher.t) : Prop :=
  HeaderMatcher.eq a b = Some true
  /\ (exists s, HeaderMatcher.ToString a = Some s
                /\ HeaderMatcher.ToString b = Some s)
  /\ forall value, exists r,
       HeaderMatcher.Match a value = Some r
       /\ HeaderMatcher.Match b value = Some r.

(** Two matchers with the same kind and flags whose payload of that kind
    is the same object; the members of the other kinds may differ. *)
Definition string_payload_agree (a b : StringMatcher.t) : Prop :=
  StringMatcher.type_ a = StringMatcher.type_ b
  /\ StringMatcher.case_sensitive_ a = StringMatcher.case_sensitive_ b
  /\ match StringMatcher.type_ a with
     | StringMatcher.SAFE_REGEX =>
         exists r, StringMatcher.regex_matcher_ a = Some r
                   /\ StringMatcher.regex_matcher_ b = Some r
     | _ => StringMatcher.string_matcher_ a = StringMatcher.string_matcher_ b
     end.

Definition header_payload_agree (a b : HeaderMatcher.t) : Prop :=
  HeaderMatcher.name_ a = HeaderMatcher.name_ b
  /\ HeaderMatcher.type_ a = HeaderMatcher.type_ b
  /\ HeaderMatcher.invert_match_ a = HeaderMatcher.invert_match_ b
  /\ match HeaderMatcher.type_ a with
     | HeaderMatcher.RANGE =>
         exists range_start range_end,
           HeaderMatcher.range_start_ a = Some range_start
           /\ HeaderMatcher.range_start_ b = Some range_start
           /\ HeaderMatcher.range_end_ a = Some range_end
           /\ HeaderMatcher.range_end_ b = Some range_end
     | HeaderMatcher.PRESENT =>
         exists present_match,
           HeaderMatcher.present_match_ a = Some present_match
           /\ HeaderMatcher.present_match_ b = Some present_match
     | _ => string_payload_agree (HeaderMatcher.matcher_ a)
              (HeaderMatcher.matcher_ b)
     end.

End MoreNotions.

(** More matchers the properties are tried on. *)
Definition prefix_ab : StringMatcher.t (engine := RefRE2.engine) :=
  StringMatcher.from_string StringMatcher.PREFIX "ab" false.

Definition suffix_ab : StringMatcher.t (engine := RefRE2.engine) :=
  StringMatcher.from_string StringMatcher.SUFFIX "ab" true.

Definition contains_ab : StringMatcher.t (engine := RefRE2.engine) :=
  StringMatcher.from_string StringMatcher.CONTAINS "ab" false.

Definition pattern_a_plus_b : StringMatcher.t (engine := RefRE2.engine) :=
  StringMatcher.from_regex (engine := RefRE2.engine)
    (RefRE2.new RefRE2.nothing "a+b" true) true.

Definition path_a_plus_b : HeaderMatcher.t (engine := RefRE2.engine) :=
  HeaderMatcher.from_string_matcher "path" HeaderMatcher.SAFE_REGEX
    pattern_a_plus_b false.

Definition present_x : HeaderMatcher.t (engine := RefRE2.engine) :=
  HeaderMatcher.from_present "x" true false.

(** * Properties *)

(** ** Abseil helpers *)

Lemma N_of_ascii_diff (a b : ascii) :
  Z.of_N (N_of_ascii a) - Z.of_N (N_of_ascii b) = 0 -> a = b.
Proof.
  intros H.
  rewrite <- (ascii_N_embedding a), <- (ascii_N_embedding b).
  f_equal. lia.
Qed.

Lemma memcmp_same (s : string) (n : nat) : Absl.memcmp s s n = 0.
Proof.
  revert n. induction s as [|c s IH]; intros [|n]; simpl; auto.
  rewrite Z.sub_diag. simpl. apply IH.
Qed.

Lemma memcmp_zero_eq (a b : string) :
  length a = length b -> Absl.memcmp a b (length a) = 0 -> a = b.
Proof.
  revert b. induction a as [|x a IH]; intros [|y b]; simpl; try discriminate; auto.
  intros Hlen. injection Hlen as Hlen.
  destruct (Z.eqb_spec (Z.of_N (N_of_ascii x) - Z.of_N (N_of_ascii y)) 0) as [E|E].
  - intros H. f_equal; [apply N_of_ascii_diff; exact E | apply IH; assumption].
  - intros H. contradiction.
Qed.

(** [operator==] on views decides equality of the byte strings. *)
Lemma view_eq_iff (a b : string) : Absl.view_eq a b = true <-> a = b.
Proof.
  unfold Absl.view_eq. split.
  - intros H. apply andb_true_iff in H as [Hl Hm].
    apply Nat.eqb_eq in Hl. apply Z.eqb_eq in Hm.
    apply memcmp_zero_eq; assumption.
  - intros ->. rewrite Nat.eqb_refl, memcmp_same. reflexivity.
Qed.

Lemma view_eq_refl (a : string) : Absl.view_eq a a = true.
Proof. apply view_eq_iff. reflexivity. Qed.

Lemma AsciiStrToLower_length (s : string) :
  length (Absl.AsciiStrToLower s) = length s.
Proof. induction s; simpl; congruence. Qed.

Lemma memcasecmp_lower (a b : string) :
  length a = length b ->
  (Absl.memcasecmp a b (length a) = 0
   <-> Absl.AsciiStrToLower a = Absl.AsciiStrToLower b).
Proof.
  revert b. induction a as [|x a IH]; intros [|y b]; simpl; try discriminate.
  - intros _. split; reflexivity.
  - intros Hlen. injection Hlen as Hlen.
    destruct (Z.eqb_spec
      (Z.of_N (N_of_ascii (Absl.ascii_tolower x))
       - Z.of_N (N_of_ascii (Absl.ascii_tolower y))) 0) as [E|E].
    + apply N_of_ascii_diff in E. rewrite E, (IH b Hlen).
      split; [intros ->; reflexivity | intros H; injection H; auto].
    + split; [intros H; contradiction|].
      intros H. injection H as Hc _. rewrite Hc, Z.sub_diag in E.
      contradiction.
Qed.

(** [EqualsIgnoreCase] compares the two strings after ASCII folding. *)
Lemma EqualsIgnoreCase_iff (a b : string) :
  Absl.EqualsIgnoreCase a b = true
  <-> Absl.AsciiStrToLower a = Absl.AsciiStrToLower b.
Proof.
  unfold Absl.EqualsIgnoreCase. split.
  - intros H. apply andb_true_iff in H as [Hl Hm].
    apply Nat.eqb_eq in Hl. apply Z.eqb_eq in Hm.
    apply memcasecmp_lower; assumption.
  - intros H.
    assert (Hl : length a = length b).
    { rewrite <- (AsciiStrToLower_length a), H. apply AsciiStrToLower_length. }
    apply andb_true_iff. split; [apply Nat.eqb_eq; exact Hl|].
    apply Z.eqb_eq. apply memcasecmp_lower; assumption.
Qed.

Lemma substring_zero_length (n : nat) (s : string) : substring n 0 s = "".
Proof.
  revert n. induction s as [|c s IH]; intros [|n]; simpl; auto.
Qed.

Lemma find_empty (haystack : string) : Absl.find haystack "" = Some O.
Proof. destruct haystack; reflexivity. Qed.

(** The empty literal starts, ends and occurs in every text, with and
    without case folding. *)
Lemma StartsWith_empty (text : string) : Absl.StartsWith text "" = true.
Proof. reflexivity. Qed.

Lemma EndsWith_empty (text : string) : Absl.EndsWith text "" = true.
Proof. reflexivity. Qed.

Lemma StartsWithIgnoreCase_empty (text : string) :
  Absl.StartsWithIgnoreCase text "" = true.
Proof.
  unfold Absl.StartsWithIgnoreCase. simpl.
  rewrite substring_zero_length. reflexivity.
Qed.

Lemma EndsWithIgnoreCase_empty (text : string) :
  Absl.EndsWithIgnoreCase text "" = true.
Proof.
  unfold Absl.EndsWithIgnoreCase. simpl.
  rewrite substring_zero_length. reflexivity.
Qed.

Lemma StrContains_empty (text : string) : Absl.StrContains text "" = true.
Proof. unfold Absl.StrContains. rewrite find_empty. reflexivity. Qed.

(** ** [SimpleAtoi] accepts exactly the decimal [int64_t] numerals *)

Lemma kAsciiToInt_digit (c : ascii) :
  Decimal.is_digit c = true ->
  Absl.kAsciiToInt c = Z.of_N (N_of_ascii c) - 48
  /\ 0 <= Absl.kAsciiToInt c < 10.
Proof.
  unfold Decimal.is_digit, Absl.kAsciiToInt. intros H.
  apply andb_true_iff in H as [H1 H2].
  apply N.leb_le in H1. apply N.leb_le in H2.
  assert (E1 : (48 <=? Z.of_N (N_of_ascii c)) = true) by (apply Z.leb_le; lia).
  assert (E2 : (Z.of_N (N_of_ascii c) <=? 57) = true) by (apply Z.leb_le; lia).
  rewrite E1, E2. simpl. lia.
Qed.

Lemma kAsciiToInt_not_digit (c : ascii) :
  Decimal.is_digit c = false -> 10 <= Absl.kAsciiToInt c.
Proof.
  unfold Decimal.is_digit, Absl.kAsciiToInt. intros H.
  apply andb_false_iff in H.
  rewrite !N.leb_gt in H.
  repeat match goal with
         | |- context [Z.leb ?a ?b] => destruct (Z.leb_spec a b)
         end; simpl; lia.
Qed.

Lemma digit_not_space (c : ascii) :
  Decimal.is_digit c = true -> Absl.ascii_isspace c = false.
Proof.
  unfold Decimal.is_digit, Absl.ascii_isspace. intros H.
  apply andb_true_iff in H as [H1 H2].
  apply N.leb_le in H1. apply N.leb_le in H2.
  apply orb_false_iff. split.
  - apply N.eqb_neq. lia.
  - apply andb_false_iff. right. apply N.leb_gt. lia.
Qed.

Lemma digit_not_sign (c : ascii) :
  Decimal.is_digit c = true ->
  Ascii.eqb c "-" = false /\ Ascii.eqb c "+" = false.
Proof.
  intros H. split; apply Ascii.eqb_neq; intros ->; discriminate H.
Qed.

Lemma value_from_ge (s : string) (acc : Z) :
  Decimal.all_digits s = true -> 0 <= acc -> acc <= Decimal.value_from acc s.
Proof.
  revert acc.
  induction s as [|c s IH]; cbn [Decimal.value_from Decimal.all_digits];
    intros acc H Hacc; [lia|].
  apply andb_true_iff in H as [Hc Hs].
  destruct (kAsciiToInt_digit c Hc) as [E Hd]. rewrite E in Hd.
  specialize (IH (10 * acc + (Z.of_N (N_of_ascii c) - 48)) Hs). lia.
Qed.

Lemma quot_max_10 : Z.quot Absl.kint64max 10 = 922337203685477580.
Proof. reflexivity. Qed.

Lemma kint64max_val : Absl.kint64max = 9223372036854775807.
Proof. reflexivity. Qed.

Lemma kint64min_val : Absl.kint64min = -9223372036854775808.
Proof. reflexivity. Qed.

Lemma positive_loop_spec (text : string) (acc n : Z) :
  0 <= acc <= Absl.kint64max ->
  (Absl.positive_loop 10 acc text = (true, n)
   <-> Decimal.all_digits text = true
       /\ n = Decimal.value_from acc text /\ n <= Absl.kint64max).
Proof.
  revert acc.
  induction text as [|c text IH];
    cbn [Absl.positive_loop Decimal.all_digits Decimal.value_from];
    intros acc Hacc.
  - split.
    + intros H. injection H as <-. repeat split; lia.
    + intros (_ & -> & _). reflexivity.
  - rewrite quot_max_10.
    destruct (Decimal.is_digit c) eqn:Hc.
    + destruct (kAsciiToInt_digit c Hc) as [E Hd].
      rewrite kint64max_val in *.
      destruct (Z.geb_spec (Absl.kAsciiToInt c) 10) as [G|G]; [lia|].
      assert (Hge : Decimal.all_digits text = true ->
                    10 * acc + (Z.of_N (N_of_ascii c) - 48)
                    <= Decimal.value_from
                         (10 * acc + (Z.of_N (N_of_ascii c) - 48)) text).
      { intros Ht. apply value_from_ge; [exact Ht | lia]. }
      destruct (Z.gtb_spec acc 922337203685477580) as [G1|G1].
      { split; [discriminate|]. intros (Ht & -> & Hn).
        apply andb_true_iff in Ht as [_ Ht]. specialize (Hge Ht). lia. }
      destruct (Z.gtb_spec (acc * 10)
                  (9223372036854775807 - Absl.kAsciiToInt c)) as [G2|G2].
      { split; [discriminate|]. intros (Ht & -> & Hn).
        apply andb_true_iff in Ht as [_ Ht]. specialize (Hge Ht). lia. }
      replace (acc * 10 + Absl.kAsciiToInt c)
        with (10 * acc + (Z.of_N (N_of_ascii c) - 48)) by lia.
      rewrite IH by lia. simpl. tauto.
    + pose proof (kAsciiToInt_not_digit c Hc) as Hd.
      destruct (Z.geb_spec (Absl.kAsciiToInt c) 10) as [G|G]; [|lia].
      split; [discriminate|]. intros (Ht & _). discriminate Ht.
Qed.

Lemma vmin_over_base_10 :
  (if Z.rem Absl.kint64min 10 >? 0 then Z.quot Absl.kint64min 10 + 1
   else Z.quot Absl.kint64min 10) = -922337203685477580.
Proof. reflexivity. Qed.

Lemma negative_loop_spec (text : string) (acc n : Z) :
  Absl.kint64min <= acc <= 0 ->
  (Absl.negative_loop 10 (-922337203685477580) acc text = (true, n)
   <-> Decimal.all_digits text = true
       /\ n = - Decimal.value_from (- acc) text /\ Absl.kint64min <= n).
Proof.
  revert acc.
  induction text as [|c text IH];
    cbn [Absl.negative_loop Decimal.all_digits Decimal.value_from];
    intros acc Hacc.
  - split.
    + intros H. injection H as <-. repeat split; lia.
    + intros (_ & -> & _). f_equal. lia.
  - destruct (Decimal.is_digit c) eqn:Hc.
    + destruct (kAsciiToInt_digit c Hc) as [E Hd].
      rewrite kint64min_val in *.
      destruct (Z.geb_spec (Absl.kAsciiToInt c) 10) as [G|G]; [lia|].
      assert (Hge : Decimal.all_digits text = true ->
                    10 * - acc + (Z.of_N (N_of_ascii c) - 48)
                    <= Decimal.value_from
                         (10 * - acc + (Z.of_N (N_of_ascii c) - 48)) text).
      { intros Ht. apply value_from_ge; [exact Ht | lia]. }
      destruct (Z.ltb_spec acc (-922337203685477580)) as [G1|G1].
      { split; [discriminate|]. intros (Ht & -> & Hn).
        apply andb_true_iff in Ht as [_ Ht]. specialize (Hge Ht). lia. }
      destruct (Z.ltb_spec (acc * 10)
                  (-9223372036854775808 + Absl.kAsciiToInt c)) as [G2|G2].
      { split; [discriminate|]. intros (Ht & -> & Hn).
        apply andb_true_iff in Ht as [_ Ht]. specialize (Hge Ht). lia. }
      rewrite IH by lia.
      replace (- (acc * 10 - Absl.kAsciiToInt c))
        with (10 * - acc + (Z.of_N (N_of_ascii c) - 48)) by lia.
      simpl. tauto.
    + pose proof (kAsciiToInt_not_digit c Hc) as Hd.
      destruct (Z.geb_spec (Absl.kAsciiToInt c) 10) as [G|G]; [|lia].
      split; [discriminate|]. intros (Ht & _). discriminate Ht.
Qed.

(** Leading white space. *)
Lemma skip_leading_space_split (s : string) :
  exists before,
    s = before ++ Absl.skip_leading_space s /\ Decimal.all_space before = true.
Proof.
  induction s as [|c s (before & E & Hb)]; simpl.
  - exists "". auto.
  - destruct (Absl.ascii_isspace c) eqn:Hc.
    + exists (String c before). simpl. rewrite Hc, Hb, <- E. auto.
    + exists "". auto.
Qed.

Lemma skip_leading_space_app (before s : string) :
  Decimal.all_space before = true ->
  Absl.skip_leading_space (before ++ s) = Absl.skip_leading_space s.
Proof.
  induction before as [|c before IH]; simpl; auto.
  intros H. apply andb_true_iff in H as [Hc Hb]. rewrite Hc. auto.
Qed.

Lemma skip_leading_space_head (c : ascii) (s : string) :
  Absl.ascii_isspace c = false ->
  Absl.skip_leading_space (String c s) = String c s.
Proof. intros H. simpl. rewrite H. reflexivity. Qed.

(** Trailing white space. *)
Lemma skip_trailing_space_split (s : string) :
  exists after,
    s = Absl.skip_trailing_space s ++ after /\ Decimal.all_space after = true.
Proof.
  induction s as [|c s (after & E & Ha)]; simpl.
  - exists "". auto.
  - destruct (Absl.skip_trailing_space s) as [|k kept] eqn:Hk.
    + simpl in E. subst s.
      destruct (Absl.ascii_isspace c) eqn:Hc.
      * exists (String c after). simpl. rewrite Hc, Ha. auto.
      * exists after. auto.
    + exists after. simpl. rewrite E at 1. auto.
Qed.

Lemma skip_trailing_space_all (after : string) :
  Decimal.all_space after = true -> Absl.skip_trailing_space after = "".
Proof.
  induction after as [|c after IH]; simpl; auto.
  intros H. apply andb_true_iff in H as [Hc Ha]. rewrite (IH Ha), Hc. auto.
Qed.

Lemma skip_trailing_space_app (s after : string) :
  Decimal.all_space after = true ->
  Absl.skip_trailing_space (s ++ after) = Absl.skip_trailing_space s.
Proof.
  intros Ha. induction s as [|c s IH]; simpl.
  - apply skip_trailing_space_all. exact Ha.
  - rewrite IH. reflexivity.
Qed.

Lemma skip_trailing_space_digits (digits : string) :
  Decimal.all_digits digits = true ->
  Absl.skip_trailing_space digits = digits.
Proof.
  induction digits as [|c d IH]; simpl; auto.
  intros H. apply andb_true_iff in H as [Hc Hd].
  rewrite (IH Hd). destruct d; [|reflexivity].
  rewrite (digit_not_space c Hc). reflexivity.
Qed.

Lemma skip_trailing_space_sign (c : ascii) (digits : string) :
  digits <> "" -> Decimal.all_digits digits = true ->
  Absl.skip_trailing_space (String c digits) = String c digits.
Proof.
  intros Hne Hd. simpl. rewrite (skip_trailing_space_digits digits Hd).
  destruct digits; [contradiction | reflexivity].
Qed.

(** [SimpleAtoi] succeeds with [n] exactly on the decimal numerals of
    [int64_t] that denote [n]: the whole text is used. *)
Lemma SimpleAtoi_iff (text : string) (n : Z) :
  Absl.SimpleAtoi text = (true, n) <-> Decimal.Int64 text n.
Proof.
  unfold Absl.SimpleAtoi, Absl.safe_strto64_base10,
    Absl.safe_parse_sign_and_base, Absl.safe_parse_positive_int,
    Absl.safe_parse_negative_int.
  rewrite vmin_over_base_10.
  split.
  - destruct (skip_leading_space_split text) as (before & E1 & Hb).
    destruct (skip_trailing_space_split (Absl.skip_leading_space text))
      as (after & E2 & Ha).
    destruct (Absl.skip_trailing_space (Absl.skip_leading_space text))
      as [|c rest] eqn:Hcore; [discriminate|].
    rewrite E1, E2.
    destruct (Ascii.eqb_spec c "-") as [->|Hm]; simpl orb; cbv iota.
    + destruct rest as [|d rest]; [discriminate|]. intros H.
      apply negative_loop_spec in H; [|rewrite kint64min_val; lia].
      destruct H as (Hd & Hn & Hlo). change (- 0) with 0 in Hn.
      change (String "-" (String d rest) ++ after)
        with ("-" ++ String d rest ++ after).
      eapply Decimal.Int64_intro with (negative := true); eauto.
      * constructor.
      * discriminate.
      * split; [exact Hlo|]. subst n.
        pose proof (value_from_ge (String d rest) 0 Hd (Z.le_refl 0)).
        rewrite kint64max_val. lia.
    + destruct (Ascii.eqb_spec c "+") as [->|Hp].
      * destruct rest as [|d rest]; [discriminate|]. intros H.
        apply positive_loop_spec in H; [|rewrite kint64max_val; lia].
        destruct H as (Hd & Hn & Hhi).
        change (String "+" (String d rest) ++ after)
          with ("+" ++ String d rest ++ after).
        eapply Decimal.Int64_intro with (negative := false); eauto.
        -- constructor.
        -- discriminate.
        -- split; [|exact Hhi]. subst n.
           pose proof (value_from_ge (String d rest) 0 Hd (Z.le_refl 0)).
           rewrite kint64min_val. lia.
      * intros H.
        apply positive_loop_spec in H; [|rewrite kint64max_val; lia].
        destruct H as (Hd & Hn & Hhi).
        change (String c rest ++ after) with ("" ++ String c rest ++ after).
        eapply Decimal.Int64_intro with (negative := false); eauto.
        -- constructor.
        -- discriminate.
        -- split; [|exact Hhi]. subst n.
           pose proof (value_from_ge (String c rest) 0 Hd (Z.le_refl 0)).
           rewrite kint64min_val. lia.
  - intros H. destruct H as [before sign negative digits after n Hb Hs Hne Hd Ha Hn Hr].
    destruct digits as [|d digits]; [contradiction|].
    pose proof Hd as Hd'. simpl in Hd'. apply andb_true_iff in Hd' as [Hd0 _].
    destruct (digit_not_sign d Hd0) as [Hdm Hdp].
    rewrite skip_leading_space_app by exact Hb.
    destruct Hs.
    + change ("" ++ String d digits ++ after)
        with (String d (digits ++ after)).
      rewrite skip_leading_space_head by (apply digit_not_space; exact Hd0).
      change (String d (digits ++ after)) with (String d digits ++ after).
      rewrite skip_trailing_space_app by exact Ha.
      rewrite (skip_trailing_space_digits _ Hd).
      rewrite Hdm, Hdp. simpl orb. cbv iota.
      apply positive_loop_spec; [rewrite kint64max_val; lia|].
      repeat split; [exact Hd | exact Hn | lia].
    + change ("+" ++ String d digits ++ after)
        with (String "+" (String d digits ++ after)).
      rewrite skip_leading_space_head by reflexivity.
      change (String "+" (String d digits ++ after))
        with (String "+" (String d digits) ++ after).
      rewrite skip_trailing_space_app by exact Ha.
      rewrite skip_trailing_space_sign by (try discriminate; exact Hd).
      simpl orb. cbv iota.
      apply positive_loop_spec; [rewrite kint64max_val; lia|].
      repeat split; [exact Hd | exact Hn | lia].
    + change ("-" ++ String d digits ++ after)
        with (String "-" (String d digits ++ after)).
      rewrite skip_leading_space_head by reflexivity.
      change (String "-" (String d digits ++ after))
        with (String "-" (String d digits) ++ after).
      rewrite skip_trailing_space_app by exact Ha.
      rewrite skip_trailing_space_sign by (try discriminate; exact Hd).
      simpl orb. cbv iota.
      apply negative_loop_spec; [rewrite kint64min_val; lia|].
      repeat split; [exact Hd | exact Hn | lia].
Qed.

(** ** The reference engine decides [Matches] *)

Section ReferenceEngine.
Import RefRE2.

Lemma append_is_empty (a b : string) : a ++ b = "" -> a = "" /\ b = "".
Proof. destruct a; simpl; [auto | discriminate]. Qed.

Lemma nullable_Matches (r : Regexp) : nullable r = true -> Matches r "".
Proof.
  induction r; simpl; intros H; try discriminate.
  - constructor.
  - apply andb_true_iff in H as [H1 H2].
    change "" with ("" ++ ""). constructor; auto.
  - apply orb_true_iff in H as [H|H];
      [apply MAlternateL | apply MAlternateR]; auto.
  - constructor.
  - change "" with ("" ++ ""). constructor; [auto | constructor].
  - constructor.
Qed.

Lemma Matches_nullable (r : Regexp) (s : string) :
  Matches r s -> s = "" -> nullable r = true.
Proof.
  induction 1; simpl; intros E; try discriminate; auto.
  - apply append_is_empty in E as [-> ->]. rewrite IHMatches1, IHMatches2; auto.
  - rewrite IHMatches; auto.
  - rewrite IHMatches; auto using orb_true_r.
  - apply append_is_empty in E as [-> ->]. auto.
Qed.

Lemma nullable_iff (r : Regexp) : nullable r = true <-> Matches r "".
Proof.
  split; [apply nullable_Matches | intros H; eapply Matches_nullable; eauto].
Qed.

Lemma derive_sound (c : ascii) (r : Regexp) (s : string) :
  Matches (derive c r) s -> Matches r (String c s).
Proof.
  revert s. induction r; simpl; intros s H.
  - inversion H.
  - inversion H.
  - destruct (Ascii.eqb_spec c0 c) as [->|N]; inversion H; subst. constructor.
  - destruct (nullable r1) eqn:N1.
    + inversion H; subst.
      * match goal with M : Matches (Concat _ _) _ |- _ =>
          inversion M; subst end.
        change (String c (s1 ++ s2)) with (String c s1 ++ s2).
        constructor; auto.
      * change (String c s) with ("" ++ String c s).
        constructor; [apply nullable_Matches; exact N1 | auto].
    + inversion H; subst.
      change (String c (s1 ++ s2)) with (String c s1 ++ s2).
      constructor; auto.
  - inversion H; subst; [apply MAlternateL | apply MAlternateR]; auto.
  - inversion H; subst.
    change (String c (s1 ++ s2)) with (String c s1 ++ s2).
    constructor; auto.
  - inversion H; subst.
    change (String c (s1 ++ s2)) with (String c s1 ++ s2).
    constructor; auto.
  - apply MQuestOne. auto.
Qed.

Lemma derive_complete (c : ascii) (r : Regexp) (text : string) :
  Matches r text -> forall t, text = String c t -> Matches (derive c r) t.
Proof.
  induction 1; intros t E; simpl; try discriminate.
  - injection E as -> <-. rewrite Ascii.eqb_refl. constructor.
  - destruct s1 as [|x s1]; simpl in E.
    + subst s2. rewrite (Matches_nullable r1 "" H eq_refl).
      apply MAlternateR. auto.
    + injection E as -> <-.
      destruct (nullable r1);
        [apply MAlternateL|]; constructor; auto.
  - apply MAlternateL. auto.
  - apply MAlternateR. auto.
  - destruct s1 as [|x s1]; simpl in E.
    + subst s2. apply (IHMatches2 t eq_refl).
    + injection E as -> <-. constructor; auto.
  - destruct s1 as [|x s1]; simpl in E.
    + subst s2. apply (IHMatches2 t eq_refl).
    + injection E as -> <-. constructor; auto.
  - auto.
Qed.

(** The derivative matcher accepts a text exactly when the whole text is
    in the language of the expression. *)
Lemma full_match_iff (r : Regexp) (text : string) :
  full_match r text = true <-> Matches r text.
Proof.
  revert r. induction text as [|c text IH]; intros r; simpl.
  - apply nullable_iff.
  - rewrite IH. split; [apply derive_sound|].
    intros H. eapply derive_complete; eauto.
Qed.

End ReferenceEngine.

Lemma substring_whole (s : string) : substring 0 (length s) s = s.
Proof. induction s as [|c s IH]; simpl; congruence. Qed.

(** [over rest] meets the contract of the engine as soon as [rest]
    matches from the first to the last byte. *)
Section OverContract.
Variable rest : RE2Engine.
Variable rest_span : @RE2 rest -> string -> nat -> nat -> Prop.
Hypothesis rest_anchored : forall re text,
  RE2_FullMatch text re = true
  <-> RE2_ok re = true /\ rest_span re text 0 (length text).

Lemma over_FullMatch_anchored (re : RefRE2.Compiled rest) (text : string) :
  RefRE2.FullMatch rest text re = true
  <-> RefRE2.is_ok rest re = true
      /\ RefRE2.span rest rest_span re text 0 (length text).
Proof.
  destruct re as [pattern r|re']; simpl.
  - rewrite Nat.sub_0_r, substring_whole, full_match_iff.
    split; [intros H; repeat split; auto; lia | intros (_ & _ & H); exact H].
  - apply rest_anchored.
Qed.

Lemma over_fragment (pattern : string) (case_sensitive : bool)
    (r : RefRE2.Regexp) :
  RefRE2.parse pattern case_sensitive = Some r ->
  RefRE2.is_ok rest (RefRE2.new rest pattern case_sensitive) = true
  /\ forall text i j,
       RefRE2.span rest rest_span (RefRE2.new rest pattern case_sensitive)
         text i j
       <-> (i <= j <= length text)%nat
           /\ RefRE2.Matches r (substring i (j - i) text).
Proof.
  intros H. unfold RefRE2.new. rewrite H. simpl.
  split; [reflexivity|]. intros text i j. reflexivity.
Qed.

Definition over_contract : RE2Contract (RefRE2.over rest) :=
  @Build_RE2Contract (RefRE2.over rest) (RefRE2.span rest rest_span)
    over_FullMatch_anchored over_fragment.

End OverContract.

Lemma nothing_anchored (re : @RE2 RefRE2.nothing) (text : string) :
  RE2_FullMatch text re = true
  <-> RE2_ok re = true /\ False.
Proof. simpl. split; [discriminate | intros [H _]; exact H]. Qed.

Definition engine_contract : RE2Contract RefRE2.engine :=
  over_contract RefRE2.nothing (fun _ _ _ _ => False) nothing_anchored.

(** ** The matchers *)

Lemma ne_is_xorb (a b : bool) : negb (Bool.eqb a b) = xorb a b.
Proof. destruct a, b; reflexivity. Qed.

Lemma Type_eqb_iff (a b : StringMatcher.Type_) :
  StringMatcher.Type_eqb a b = true <-> a = b.
Proof. destruct a, b; simpl; split; congruence. Qed.

Lemma header_Type_eqb_iff (a b : HeaderMatcher.Type_) :
  HeaderMatcher.Type_eqb a b = true <-> a = b.
Proof. destruct a, b; simpl; split; congruence. Qed.

Lemma shared_kind_cast (type : HeaderMatcher.Type_) (kind : StringMatcher.Type_) :
  shared_kind type = Some kind ->
  (HeaderMatcher.to_int type <? 5) = true
  /\ StringMatcher.Type_of_int (HeaderMatcher.to_int type) = kind.
Proof.
  destruct type; simpl; intros H; try discriminate;
    injection H as <-; split; reflexivity.
Qed.

Section Matchers.
Context {engine : RE2Engine}.

Lemma Create_built type matcher case_sensitive sm :
  StringMatcher.Create type matcher case_sensitive = OkValue sm ->
  string_matcher_built sm.
Proof.
  unfold StringMatcher.Create, string_matcher_built.
  destruct type; simpl; try (intros H; injection H as <-; discriminate).
  destruct (RE2_ok _); simpl; [|discriminate].
  intros H. injection H as <-. simpl. eauto.
Qed.

(** [StringMatcher::Match] returns on every matcher [Create] built. *)
Lemma Match_built_returns sm value :
  string_matcher_built sm -> exists b, StringMatcher.Match sm value = Some b.
Proof.
  unfold string_matcher_built, StringMatcher.Match.
  destruct (StringMatcher.type_ sm); intros H; eauto.
  destruct (H eq_refl) as [r ->]. simpl. eauto.
Qed.

(** What [HeaderMatcher::Create] returns for a shared kind. *)
Lemma Create_shared name type kind matcher range_start range_end
    present_match invert_match :
  shared_kind type = Some kind ->
  HeaderMatcher.Create name type matcher range_start range_end present_match
    invert_match
  = match StringMatcher.Create kind matcher true with
    | NotOk status => NotOk status
    | OkValue sm =>
        OkValue (HeaderMatcher.from_string_matcher name type sm invert_match)
    end.
Proof.
  intros H. destruct (shared_kind_cast type kind H) as [Hlt Hcast].
  unfold HeaderMatcher.Create. rewrite Hlt, Hcast. reflexivity.
Qed.

(** [Match] of a shared kind on a present value. *)
Lemma Match_shared name type kind sm invert_match text :
  shared_kind type = Some kind ->
  HeaderMatcher.Match
    (HeaderMatcher.from_string_matcher name type sm invert_match) (Some text)
  = (b <- StringMatcher.Match sm text ;; Some (xorb b invert_match)).
Proof.
  intros H. unfold HeaderMatcher.Match. simpl.
  destruct type; try discriminate H; simpl;
    destruct (StringMatcher.Match sm text); simpl;
    rewrite ?ne_is_xorb; reflexivity.
Qed.

(** C1: a matcher of any kind but Present, asked about an absent value,
    has the base result [false], and the result is that base xor
    [invert_match_]: [true] for an inverted matcher, [false] otherwise. *)
Theorem Match_absent (hm : HeaderMatcher.t) :
  HeaderMatcher.type_ hm <> HeaderMatcher.PRESENT ->
  HeaderMatcher.Match hm None
  = Some (xorb false (HeaderMatcher.invert_match_ hm))
  /\ (HeaderMatcher.invert_match_ hm = true ->
      HeaderMatcher.Match hm None = Some true)
  /\ (HeaderMatcher.invert_match_ hm = false ->
      HeaderMatcher.Match hm None = Some false).
Proof.
  intros Hkind.
  assert (E : HeaderMatcher.Match hm None
              = Some (xorb false (HeaderMatcher.invert_match_ hm))).
  { unfold HeaderMatcher.Match.
    destruct (HeaderMatcher.Type_eqb (HeaderMatcher.type_ hm)
                HeaderMatcher.PRESENT) eqn:Hp.
    - apply header_Type_eqb_iff in Hp. contradiction.
    - simpl. destruct (HeaderMatcher.invert_match_ hm); reflexivity. }
  split; [exact E|]. rewrite E.
  split; intros ->; reflexivity.
Qed.

(** [Match] of a Range matcher on a present value, computed. *)
Lemma Match_range_eval (hm : HeaderMatcher.t) (range_start range_end : Z)
    (text : string) :
  HeaderMatcher.type_ hm = HeaderMatcher.RANGE ->
  HeaderMatcher.range_start_ hm = Some range_start ->
  HeaderMatcher.range_end_ hm = Some range_end ->
  HeaderMatcher.Match hm (Some text)
  = Some (xorb (fst (Absl.SimpleAtoi text)
                && (snd (Absl.SimpleAtoi text) >=? range_start)
                && (snd (Absl.SimpleAtoi text) <? range_end))
               (HeaderMatcher.invert_match_ hm)).
Proof.
  intros Hkind Hs He.
  unfold HeaderMatcher.Match. rewrite Hkind, Hs, He. simpl.
  destruct (Absl.SimpleAtoi text) as [parsed int_value]. simpl.
  destruct parsed, (int_value >=? range_start), (int_value <? range_end),
    (HeaderMatcher.invert_match_ hm); reflexivity.
Qed.

(** C2: on a present value a Range matcher has base result [true]
    exactly when the whole text is a decimal [int64_t] numeral whose
    value [n] satisfies [range_start <= n < range_end]; a text that does
    not parse and a value equal to [range_end] give base [false]. *)
Theorem Match_range (hm : HeaderMatcher.t) (range_start range_end : Z)
    (text : string) :
  HeaderMatcher.type_ hm = HeaderMatcher.RANGE ->
  HeaderMatcher.range_start_ hm = Some range_start ->
  HeaderMatcher.range_end_ hm = Some range_end ->
  exists base,
    HeaderMatcher.Match hm (Some text)
    = Some (xorb base (HeaderMatcher.invert_match_ hm))
    /\ (base = true <->
        exists n, Decimal.Int64 text n /\ range_start <= n < range_end)
    /\ ((forall n, ~ Decimal.Int64 text n) -> base = false)
    /\ (Decimal.Int64 text range_end -> base = false).
Proof.
  intros Hkind Hs He.
  rewrite (Match_range_eval hm range_start range_end text Hkind Hs He).
  destruct (Absl.SimpleAtoi text) as [parsed int_value] eqn:Hp.
  assert (Hfun : forall n, Decimal.Int64 text n ->
                           parsed = true /\ int_value = n).
  { intros n Hn. apply SimpleAtoi_iff in Hn. rewrite Hp in Hn.
    injection Hn as -> ->. auto. }
  eexists. split; [reflexivity|]. cbn [fst snd].
  destruct parsed; cbn [andb].
  - apply SimpleAtoi_iff in Hp.
    split; [|split].
    + rewrite andb_true_iff, Z.geb_le, Z.ltb_lt. split.
      * intros [H1 H2]. exists int_value. auto.
      * intros (n & Hn & H1 & H2). destruct (Hfun n Hn) as [_ ->]. auto.
    + intros Hno. destruct (Hno int_value Hp).
    + intros Hend. destruct (Hfun _ Hend) as [_ ->].
      rewrite Z.ltb_irrefl. apply andb_false_r.
  - split; [|auto].
    split; [discriminate|].
    intros (n & Hn & _). destruct (Hfun n Hn) as [H _]. discriminate H.
Qed.

(** C3: for each of the five shared kinds [HeaderMatcher::Create] calls
    [StringMatcher::Create] with [case_sensitive = true], whatever the
    other arguments are; an error of that call is returned as it is, and
    otherwise the matcher built holds the case-sensitive [StringMatcher]
    and matches present values with it. *)
Theorem Create_shared_case_sensitive (name : string)
    (type : HeaderMatcher.Type_) (kind : StringMatcher.Type_)
    (matcher : string) (range_start range_end : Z)
    (present_match invert_match : bool) :
  shared_kind type = Some kind ->
  match StringMatcher.Create kind matcher true with
  | NotOk status =>
      HeaderMatcher.Create name type matcher range_start range_end
        present_match invert_match = NotOk status
  | OkValue sm =>
      exists hm,
        HeaderMatcher.Create name type matcher range_start range_end
          present_match invert_match = OkValue hm
        /\ HeaderMatcher.matcher_ hm = sm
        /\ StringMatcher.case_sensitive_ (HeaderMatcher.matcher_ hm) = true
        /\ forall text, exists b,
             StringMatcher.Match sm text = Some b
             /\ HeaderMatcher.Match hm (Some text)
                = Some (xorb b invert_match)
  end.
Proof.
  intros Hshared.
  rewrite (Create_shared name type kind matcher range_start range_end
             present_match invert_match Hshared).
  destruct (StringMatcher.Create kind matcher true) as [sm|status] eqn:Hc;
    [|reflexivity].
  eexists. split; [reflexivity|]. simpl. split; [reflexivity|]. split.
  - revert Hc. unfold StringMatcher.Create.
    destruct (StringMatcher.Type_eqb kind StringMatcher.SAFE_REGEX).
    + destruct (negb _); [discriminate|]. intros H. injection H as <-.
      reflexivity.
    + intros H. injection H as <-. reflexivity.
  - intros text.
    destruct (Match_built_returns sm text (Create_built _ _ _ _ Hc))
      as [b Hb].
    exists b. split; [exact Hb|].
    rewrite (Match_shared name type kind sm invert_match text Hshared), Hb.
    reflexivity.
Qed.


(** C4: [HeaderMatcher::Create] of kind Range fails, with the message
    that the end cannot be smaller than the start, exactly when
    [range_start > range_end]; equal bounds are accepted and the matcher
    built answers base [false] (then inverted) to every value, present or
    absent. *)
Theorem Create_range (name matcher : string) (range_start range_end : Z)
    (present_match invert_match : bool) :
  (HeaderMatcher.Create name HeaderMatcher.RANGE matcher range_start
     range_end present_match invert_match
   = NotOk (InvalidArgumentError
       "Invalid range specifier specified: end cannot be smaller than start.")
   <-> range_start > range_end)
  /\ (ok (HeaderMatcher.Create name HeaderMatcher.RANGE matcher range_start
            range_end present_match invert_match) = false
      <-> range_start > range_end)
  /\ exists hm,
       HeaderMatcher.Create name HeaderMatcher.RANGE matcher range_start
         range_start present_match invert_match = OkValue hm
       /\ forall value,
            HeaderMatcher.Match hm value = Some (xorb false invert_match).
Proof.
  unfold HeaderMatcher.Create. simpl.
  split; [|split].
  - destruct (Z.gtb_spec range_start range_end);
      split; try reflexivity; try discriminate; lia.
  - destruct (Z.gtb_spec range_start range_end);
      split; try reflexivity; try discriminate; lia.
  - destruct (Z.gtb_spec range_start range_start) as [G|G]; [lia|].
    eexists. split; [reflexivity|].
    intros [text|].
    + rewrite (Match_range_eval
                 (HeaderMatcher.from_range name range_start range_start
                    invert_match)
                 range_start range_start text eq_refl eq_refl eq_refl).
      replace (fst (Absl.SimpleAtoi text)
               && (snd (Absl.SimpleAtoi text) >=? range_start)
               && (snd (Absl.SimpleAtoi text) <? range_start))
        with false; [reflexivity|].
      symmetry. rewrite <- andb_assoc. apply andb_false_intro2.
      destruct (Z.geb_spec (snd (Absl.SimpleAtoi text)) range_start);
        [|reflexivity].
      apply Z.ltb_ge. assumption.
    + simpl. destruct invert_match; reflexivity.
Qed.

(** C5 (amended): the string form of a Range matcher is
    [HeaderMatcher{<name> [not ]range=[start, end]}]: the bounds in
    decimal between square brackets on both sides, with ["not "] exactly
    when [invert_match_] is set. *)
Theorem ToString_range (hm : HeaderMatcher.t) (range_start range_end : Z) :
  HeaderMatcher.type_ hm = HeaderMatcher.RANGE ->
  HeaderMatcher.range_start_ hm = Some range_start ->
  HeaderMatcher.range_end_ hm = Some range_end ->
  HeaderMatcher.ToString hm
  = Some ("HeaderMatcher{" ++ HeaderMatcher.name_ hm ++ " "
          ++ (if HeaderMatcher.invert_match_ hm then "not " else "")
          ++ "range=[" ++ Absl.FormatInt range_start ++ ", "
          ++ Absl.FormatInt range_end ++ "]" ++ "}").
Proof.
  intros Hkind Hs He. unfold HeaderMatcher.ToString.
  rewrite Hkind, Hs, He. reflexivity.
Qed.

(** C6: an Exact matcher built case-sensitive accepts [v] exactly when
    [v] is the pattern, byte for byte; built case-insensitive it accepts
    [v] exactly when [v] and the pattern agree after [AsciiStrToLower],
    which leaves every byte above 127 as it is: ["FOO"] accepts ["foo"],
    and a capital E with acute accent does not accept the small one, in
    UTF-8 and in Latin-1. *)
Theorem Match_exact (p v : string) :
  (exists b,
     StringMatcher.Create StringMatcher.EXACT p true
     = OkValue (StringMatcher.from_string StringMatcher.EXACT p true)
     /\ StringMatcher.Match
          (StringMatcher.from_string StringMatcher.EXACT p true) v = Some b
     /\ (b = true <-> v = p))
  /\ (exists b,
        StringMatcher.Create StringMatcher.EXACT p false
        = OkValue (StringMatcher.from_string StringMatcher.EXACT p false)
        /\ StringMatcher.Match
             (StringMatcher.from_string StringMatcher.EXACT p false) v
           = Some b
        /\ (b = true <-> Absl.AsciiStrToLower v = Absl.AsciiStrToLower p))
  /\ (forall c, (128 <= N_of_ascii c)%N -> Absl.ascii_tolower c = c)
  /\ StringMatcher.Match
       (StringMatcher.from_string StringMatcher.EXACT "FOO" false) "foo"
     = Some true
  /\ StringMatcher.Match
       (StringMatcher.from_string StringMatcher.EXACT E_acute_utf8 false)
       e_acute_utf8 = Some false
  /\ StringMatcher.Match
       (StringMatcher.from_string StringMatcher.EXACT E_acute_latin1 false)
       e_acute_latin1 = Some false.
Proof.
  split; [|split; [|split; [|split; [|split]]]]; try reflexivity.
  - exists (Absl.view_eq v p). repeat split; try reflexivity;
      apply view_eq_iff.
  - exists (Absl.EqualsIgnoreCase v p). repeat split; try reflexivity;
      apply EqualsIgnoreCase_iff.
  - intros c Hc. unfold Absl.ascii_tolower.
    destruct (N.leb_spec (N_of_ascii c) 90); [lia|].
    rewrite andb_false_r. reflexivity.
Qed.


(** [operator==] of [StringMatcher] holds exactly between matchers of the
    same kind, flag and payload. *)
Lemma string_eq_iff (a b : StringMatcher.t) :
  StringMatcher.eq a b = Some true <-> string_matcher_same a b.
Proof.
  unfold StringMatcher.eq, string_matcher_same.
  destruct (StringMatcher.Type_eqb (StringMatcher.type_ a)
              (StringMatcher.type_ b)) eqn:Ht; simpl.
  2:{ split; [discriminate|]. intros (E & _).
      apply Type_eqb_iff in E. congruence. }
  apply Type_eqb_iff in Ht.
  destruct (Bool.eqb (StringMatcher.case_sensitive_ a)
              (StringMatcher.case_sensitive_ b)) eqn:Hc; simpl.
  2:{ split; [discriminate|]. intros (_ & E & _).
      apply Bool.eqb_true_iff in E. congruence. }
  apply Bool.eqb_prop in Hc.
  destruct (StringMatcher.type_ a) eqn:Ha; simpl;
    try (split;
         [ intros H; injection H as H; apply view_eq_iff in H;
           repeat split; assumption
         | intros (_ & _ & ->); rewrite view_eq_refl; reflexivity ]).
  destruct (StringMatcher.regex_matcher_ a) as [r1|]; simpl.
  2:{ split; [discriminate|]. intros (_ & _ & r1 & r2 & H & _).
      discriminate H. }
  destruct (StringMatcher.regex_matcher_ b) as [r2|]; simpl.
  2:{ split; [discriminate|]. intros (_ & _ & r1' & r2 & _ & H & _).
      discriminate H. }
  split.
  - intros H. injection H as H. apply view_eq_iff in H.
    repeat split; auto. exists r1, r2. auto.
  - intros (_ & _ & r1' & r2' & E1 & E2 & E).
    injection E1 as <-. injection E2 as <-.
    rewrite E, view_eq_refl. reflexivity.
Qed.

(** [operator==] of [HeaderMatcher] holds exactly between matchers of the
    same name, kind, inversion flag and payload. *)
Lemma header_eq_iff (a b : HeaderMatcher.t) :
  HeaderMatcher.eq a b = Some true <-> header_matcher_same a b.
Proof.
  unfold HeaderMatcher.eq, header_matcher_same.
  destruct (Absl.view_eq (HeaderMatcher.name_ a) (HeaderMatcher.name_ b))
    eqn:Hn; simpl.
  2:{ split; [discriminate|]. intros (E & _).
      apply view_eq_iff in E. congruence. }
  apply view_eq_iff in Hn.
  destruct (HeaderMatcher.Type_eqb (HeaderMatcher.type_ a)
              (HeaderMatcher.type_ b)) eqn:Ht; simpl.
  2:{ split; [discriminate|]. intros (_ & E & _).
      apply header_Type_eqb_iff in E. congruence. }
  apply header_Type_eqb_iff in Ht.
  destruct (Bool.eqb (HeaderMatcher.invert_match_ a)
              (HeaderMatcher.invert_match_ b)) eqn:Hi; simpl.
  2:{ split; [discriminate|]. intros (_ & _ & E & _).
      apply Bool.eqb_true_iff in E. congruence. }
  apply Bool.eqb_prop in Hi.
  destruct (HeaderMatcher.type_ a) eqn:Ha;
    try (rewrite string_eq_iff; tauto).
  - destruct (HeaderMatcher.range_start_ a) as [s1|]; simpl.
    2:{ split; [discriminate|]. intros (_ & _ & _ & s & e & H & _).
        discriminate H. }
    destruct (HeaderMatcher.range_start_ b) as [s2|]; simpl.
    2:{ split; [discriminate|]. intros (_ & _ & _ & s & e & _ & H & _).
        discriminate H. }
    destruct (Z.eqb_spec s1 s2) as [->|Hs].
    2:{ split; [discriminate|]. intros (_ & _ & _ & s & e & H1 & H2 & _).
        congruence. }
    destruct (HeaderMatcher.range_end_ a) as [e1|]; simpl.
    2:{ split; [discriminate|]. intros (_ & _ & _ & s & e & _ & _ & H & _).
        discriminate H. }
    destruct (HeaderMatcher.range_end_ b) as [e2|]; simpl.
    2:{ split; [discriminate|].
        intros (_ & _ & _ & s & e & _ & _ & _ & H). discriminate H. }
    split.
    + intros H. injection H as H. apply Z.eqb_eq in H. subst e2.
      repeat split; auto. exists s2, e1. auto.
    + intros (_ & _ & _ & s & e & _ & _ & H1 & H2).
      f_equal. apply Z.eqb_eq. congruence.
  - destruct (HeaderMatcher.present_match_ a) as [p1|]; simpl.
    2:{ split; [discriminate|]. intros (_ & _ & _ & p & H & _).
        discriminate H. }
    destruct (HeaderMatcher.present_match_ b) as [p2|]; simpl.
    2:{ split; [discriminate|]. intros (_ & _ & _ & p & _ & H).
        discriminate H. }
    split.
    + intros H. injection H as H. apply Bool.eqb_prop in H. subst p2.
      repeat split; auto. exists p1. auto.
    + intros (_ & _ & _ & p & H1 & H2).
      f_equal. apply Bool.eqb_true_iff. congruence.
Qed.

Lemma string_same_ToString (a b : StringMatcher.t) :
  string_matcher_same a b ->
  exists s, StringMatcher.ToString a = Some s
            /\ StringMatcher.ToString b = Some s.
Proof.
  unfold string_matcher_same, StringMatcher.ToString,
    StringMatcher.case_suffix.
  intros (Ht & Hc & Hp). rewrite <- Ht, <- Hc.
  destruct (StringMatcher.type_ a);
    try (rewrite <- Hp; eexists; split; reflexivity).
  destruct Hp as (r1 & r2 & E1 & E2 & E). rewrite E1, E2. simpl.
  rewrite E. eexists; split; reflexivity.
Qed.

Lemma header_same_ToString (a b : HeaderMatcher.t) :
  header_matcher_same a b ->
  exists s, HeaderMatcher.ToString a = Some s
            /\ HeaderMatcher.ToString b = Some s.
Proof.
  unfold header_matcher_same, HeaderMatcher.ToString,
    HeaderMatcher.not_prefix.
  intros (Hn & Ht & Hi & Hp). rewrite <- Hn, <- Ht, <- Hi.
  destruct (HeaderMatcher.type_ a);
    try (destruct (string_same_ToString _ _ Hp) as (s & -> & ->); simpl;
         eexists; split; reflexivity).
  - destruct Hp as (s & e & -> & -> & -> & ->). simpl.
    eexists; split; reflexivity.
  - destruct Hp as (p & -> & ->). simpl. eexists; split; reflexivity.
Qed.

Lemma string_same_refl (sm : StringMatcher.t) :
  string_matcher_built sm -> string_matcher_same sm sm.
Proof.
  unfold string_matcher_built, string_matcher_same. intros H.
  repeat split; auto.
  destruct (StringMatcher.type_ sm); auto.
  destruct (H eq_refl) as [r Hr]. exists r, r. auto.
Qed.

Lemma header_Create_same name type matcher range_start range_end
    present_match invert_match hm :
  HeaderMatcher.Create name type matcher range_start range_end
    present_match invert_match = OkValue hm ->
  header_matcher_same hm hm.
Proof.
  destruct (shared_kind type) as [kind|] eqn:Hk.
  - rewrite (Create_shared name type kind matcher range_start range_end
               present_match invert_match Hk).
    destruct (StringMatcher.Create kind matcher true) as [sm|] eqn:Hc;
      [|discriminate].
    intros H. injection H as <-. unfold header_matcher_same. simpl.
    repeat split.
    pose proof (string_same_refl sm (Create_built _ _ _ _ Hc)) as Hs.
    destruct type; try discriminate Hk; exact Hs.
  - unfold HeaderMatcher.Create.
    destruct type; try discriminate Hk; simpl.
    + destruct (range_start >? range_end); [discriminate|].
      intros H. injection H as <-. unfold header_matcher_same. simpl.
      repeat split. exists range_start, range_end. auto.
    + intros H. injection H as <-. unfold header_matcher_same. simpl.
      repeat split. exists present_match. auto.
Qed.

(** C8: matchers that [operator==] declares equal have the same string
    form, two matchers built from the same arguments are equal, and
    [operator==] is equality of kind, flags and payload, a pattern being
    compared by its source text. *)
Theorem equal_matchers_same_string :
  (forall a b : StringMatcher.t,
     StringMatcher.eq a b = Some true ->
     exists s, StringMatcher.ToString a = Some s
               /\ StringMatcher.ToString b = Some s)
  /\ (forall a b : HeaderMatcher.t,
        HeaderMatcher.eq a b = Some true ->
        exists s, HeaderMatcher.ToString a = Some s
                  /\ HeaderMatcher.ToString b = Some s)
  /\ (forall type matcher case_sensitive a b,
        StringMatcher.Create type matcher case_sensitive = OkValue a ->
        StringMatcher.Create type matcher case_sensitive = OkValue b ->
        StringMatcher.eq a b = Some true)
  /\ (forall name type matcher range_start range_end present_match
             invert_match a b,
        HeaderMatcher.Create name type matcher range_start range_end
          present_match invert_match = OkValue a ->
        HeaderMatcher.Create name type matcher range_start range_end
          present_match invert_match = OkValue b ->
        HeaderMatcher.eq a b = Some true)
  /\ (forall a b : StringMatcher.t,
        StringMatcher.eq a b = Some true <-> string_matcher_same a b)
  /\ (forall a b : HeaderMatcher.t,
        HeaderMatcher.eq a b = Some true <-> header_matcher_same a b).
Proof.
  split; [|split; [|split; [|split; [|split]]]].
  - intros a b H. apply string_same_ToString, string_eq_iff, H.
  - intros a b H. apply header_same_ToString, header_eq_iff, H.
  - intros type matcher cs a b Ha Hb.
    rewrite Ha in Hb. injection Hb as <-.
    apply string_eq_iff, string_same_refl.
    exact (Create_built _ _ _ _ Ha).
  - intros name type matcher rs re pm inv a b Ha Hb.
    pose proof Ha as Ha'. rewrite Hb in Ha'. injection Ha' as ->.
    apply header_eq_iff.
    exact (header_Create_same _ _ _ _ _ _ _ _ Ha).
  - exact string_eq_iff.
  - exact header_eq_iff.
Qed.


(** [HeaderMatcher::Match] reads every member but [name_]. *)
Lemma Match_without_name (a b : HeaderMatcher.t) (value : option string) :
  HeaderMatcher.type_ a = HeaderMatcher.type_ b ->
  HeaderMatcher.matcher_ a = HeaderMatcher.matcher_ b ->
  HeaderMatcher.range_start_ a = HeaderMatcher.range_start_ b ->
  HeaderMatcher.range_end_ a = HeaderMatcher.range_end_ b ->
  HeaderMatcher.present_match_ a = HeaderMatcher.present_match_ b ->
  HeaderMatcher.invert_match_ a = HeaderMatcher.invert_match_ b ->
  HeaderMatcher.Match a value = HeaderMatcher.Match b value.
Proof.
  unfold HeaderMatcher.Match. intros -> -> -> -> -> ->. reflexivity.
Qed.

(** [HeaderMatcher::Match] returns on every matcher [Create] built. *)
Lemma header_Match_returns name type matcher range_start range_end
    present_match invert_match hm value :
  HeaderMatcher.Create name type matcher range_start range_end
    present_match invert_match = OkValue hm ->
  exists b, HeaderMatcher.Match hm value = Some b.
Proof.
  destruct (shared_kind type) as [kind|] eqn:Hk.
  - rewrite (Create_shared name type kind matcher range_start range_end
               present_match invert_match Hk).
    destruct (StringMatcher.Create kind matcher true) as [sm|] eqn:Hc;
      [|discriminate].
    intros H. injection H as <-.
    destruct value as [text|].
    + rewrite (Match_shared name type kind sm invert_match text Hk).
      destruct (Match_built_returns sm text (Create_built _ _ _ _ Hc))
        as [b ->].
      simpl. eauto.
    + unfold HeaderMatcher.Match. simpl.
      destruct type; try discriminate Hk; simpl; eauto.
  - unfold HeaderMatcher.Create.
    destruct type; try discriminate Hk; simpl.
    + destruct (range_start >? range_end); [discriminate|].
      intros H. injection H as <-.
      destruct value as [text|].
      * rewrite (Match_range_eval
                   (HeaderMatcher.from_range name range_start range_end
                      invert_match)
                   range_start range_end text eq_refl eq_refl eq_refl).
        eauto.
      * unfold HeaderMatcher.Match. simpl. eauto.
    + intros H. injection H as <-.
      unfold HeaderMatcher.Match. simpl. eauto.
Qed.

(** What [HeaderMatcher::Create] stores does not depend on the name,
    except for [name_]. *)
Lemma Create_members_without_name name1 name2 type matcher range_start
    range_end present_match invert_match h1 h2 :
  HeaderMatcher.Create name1 type matcher range_start range_end
    present_match invert_match = OkValue h1 ->
  HeaderMatcher.Create name2 type matcher range_start range_end
    present_match invert_match = OkValue h2 ->
  HeaderMatcher.type_ h1 = HeaderMatcher.type_ h2
  /\ HeaderMatcher.matcher_ h1 = HeaderMatcher.matcher_ h2
  /\ HeaderMatcher.range_start_ h1 = HeaderMatcher.range_start_ h2
  /\ HeaderMatcher.range_end_ h1 = HeaderMatcher.range_end_ h2
  /\ HeaderMatcher.present_match_ h1 = HeaderMatcher.present_match_ h2
  /\ HeaderMatcher.invert_match_ h1 = HeaderMatcher.invert_match_ h2.
Proof.
  unfold HeaderMatcher.Create.
  destruct (HeaderMatcher.to_int type <? 5).
  - destruct (StringMatcher.Create _ matcher true); [|discriminate].
    intros H1 H2. injection H1 as <-. injection H2 as <-.
    repeat split.
  - destruct (HeaderMatcher.Type_eqb type HeaderMatcher.RANGE).
    + destruct (range_start >? range_end); [discriminate|].
      intros H1 H2. injection H1 as <-. injection H2 as <-.
      repeat split.
    + intros H1 H2. injection H1 as <-. injection H2 as <-.
      repeat split.
Qed.

(** C9: two matchers built from the same arguments except for the name
    give the same answer on every value, present or absent. *)
Theorem Match_ignores_name (name1 name2 : string)
    (type : HeaderMatcher.Type_) (matcher : string)
    (range_start range_end : Z) (present_match invert_match : bool)
    (h1 h2 : HeaderMatcher.t) :
  HeaderMatcher.Create name1 type matcher range_start range_end
    present_match invert_match = OkValue h1 ->
  HeaderMatcher.Create name2 type matcher range_start range_end
    present_match invert_match = OkValue h2 ->
  forall value, exists b,
    HeaderMatcher.Match h1 value = Some b
    /\ HeaderMatcher.Match h2 value = Some b.
Proof.
  intros H1 H2 value.
  destruct (header_Match_returns _ _ _ _ _ _ _ _ value H1) as [b Hb].
  exists b. split; [exact Hb|].
  destruct (Create_members_without_name _ _ _ _ _ _ _ _ _ _ H1 H2)
    as (Ht & Hm & Hs & He & Hp & Hi).
  rewrite <- Hb. symmetry. apply Match_without_name; assumption.
Qed.

(** C10: a Prefix, Suffix or Contains matcher built from the empty
    pattern, with either case flag, accepts every value, the empty one
    included. *)
Theorem Match_empty_pattern (type : StringMatcher.Type_)
    (case_sensitive : bool) (v : string) :
  In type [StringMatcher.PREFIX; StringMatcher.SUFFIX;
           StringMatcher.CONTAINS] ->
  exists sm,
    StringMatcher.Create type "" case_sensitive = OkValue sm
    /\ StringMatcher.Match sm v = Some true.
Proof.
  intros Hin. unfold StringMatcher.Create.
  assert (Hre : StringMatcher.Type_eqb type StringMatcher.SAFE_REGEX = false).
  { destruct Hin as [<-|[<-|[<-|[]]]]; reflexivity. }
  rewrite Hre. eexists. split; [reflexivity|].
  unfold StringMatcher.Match. simpl.
  destruct Hin as [<-|[<-|[<-|[]]]]; destruct case_sensitive; f_equal;
    auto using StartsWith_empty, StartsWithIgnoreCase_empty,
      EndsWith_empty, EndsWithIgnoreCase_empty, StrContains_empty.
Qed.

End Matchers.

(** ** Patterns *)

Section Patterns.
Context {engine : RE2Engine} {contract : RE2Contract engine}.

(** C7: [Match] of a Pattern matcher that [Create] built accepts [v]
    exactly when the compiled expression matches [v] from its first byte
    to its last.  For a pattern of the fragment [Create] succeeds and
    [Match] accepts exactly the values that are, as a whole, in the
    language of the pattern.  A value of which only a piece matches is
    refused: the matcher of [a+b] accepts [aab] and refuses [xaabx],
    although the expression matches the bytes 1 to 4 of [xaabx]. *)
Theorem Match_pattern_anchored :
  (forall (pattern : string) (case_sensitive : bool) (sm : StringMatcher.t),
     StringMatcher.Create StringMatcher.SAFE_REGEX pattern case_sensitive
     = OkValue sm ->
     exists re,
       StringMatcher.regex_matcher_ sm = Some re
       /\ RE2_pattern re = pattern
       /\ forall v, exists b,
            StringMatcher.Match sm v = Some b
            /\ (b = true <-> RE2_span re v 0 (length v)))
  /\ (forall (pattern : string) (case_sensitive : bool) (r : RefRE2.Regexp),
        RefRE2.parse pattern case_sensitive = Some r ->
        exists sm,
          StringMatcher.Create StringMatcher.SAFE_REGEX pattern case_sensitive
          = OkValue sm
          /\ forall v, exists b,
               StringMatcher.Match sm v = Some b
               /\ (b = true <-> RefRE2.Matches r v))
  /\ exists sm re,
       StringMatcher.Create StringMatcher.SAFE_REGEX "a+b" true = OkValue sm
       /\ StringMatcher.regex_matcher_ sm = Some re
       /\ StringMatcher.Match sm "aab" = Some true
       /\ StringMatcher.Match sm "xaabx" = Some false
       /\ RE2_span re "xaabx" 1 4.
Proof.
  assert (Hfrag : forall pattern cs r,
            RefRE2.parse pattern cs = Some r ->
            StringMatcher.Create StringMatcher.SAFE_REGEX pattern cs
            = OkValue (StringMatcher.from_regex (RE2_new pattern cs) cs)
            /\ forall v,
                 RE2_FullMatch v (RE2_new pattern cs) = true
                 <-> RefRE2.Matches r v).
  { intros pattern cs r Hp.
    destruct (RE2_fragment pattern cs r Hp) as [Hok Hspan].
    split.
    - unfold StringMatcher.Create. simpl. rewrite Hok. reflexivity.
    - intros v. rewrite RE2_FullMatch_anchored, Hspan, Nat.sub_0_r,
        substring_whole.
      split; [intros (_ & _ & H); exact H|].
      intros H. repeat split; auto; lia. }
  split; [|split].
  - intros pattern cs sm. unfold StringMatcher.Create. simpl.
    destruct (RE2_ok (RE2_new pattern cs)) eqn:Hok; simpl; [|discriminate].
    intros H. injection H as <-.
    exists (RE2_new pattern cs). split; [reflexivity|].
    split; [apply RE2_pattern_new|]. intros v.
    exists (RE2_FullMatch v (RE2_new pattern cs)).
    split; [reflexivity|].
    rewrite RE2_FullMatch_anchored. split; [intros [_ H]; exact H | auto].
  - intros pattern cs r Hp. destruct (Hfrag pattern cs r Hp) as [Hc Hm].
    eexists. split; [exact Hc|]. intros v.
    exists (RE2_FullMatch v (RE2_new pattern cs)).
    split; [reflexivity | apply Hm].
  - assert (Hp : exists r, RefRE2.parse "a+b" true = Some r) by (eexists; reflexivity).
    destruct Hp as [r Hp].
    destruct (Hfrag "a+b" true r Hp) as [Hc Hm].
    destruct (RE2_fragment "a+b" true r Hp) as [_ Hspan].
    assert (Hr : Some r = RefRE2.parse "a+b" true) by (symmetry; exact Hp).
    injection Hr as Hr.
    eexists. eexists. split; [exact Hc|]. split; [reflexivity|].
    unfold StringMatcher.Match. simpl.
    split; [|split].
    + f_equal. apply Hm. rewrite Hr. apply full_match_iff. reflexivity.
    + f_equal. apply not_true_is_false. intros H. apply Hm in H.
      rewrite Hr in H. apply full_match_iff in H. discriminate H.
    + apply Hspan. split; [simpl; lia|].
      rewrite Hr. apply full_match_iff. reflexivity.
Qed.

End Patterns.

(** ** The properties at concrete matchers *)

Section Concrete.
#[local] Existing Instance RefRE2.engine.

Lemma Match_absent_witness :
  HeaderMatcher.type_ inverted_exact_a <> HeaderMatcher.PRESENT
  /\ HeaderMatcher.Match inverted_exact_a None = Some true.
Proof.
  split; [discriminate|].
  apply (Match_absent inverted_exact_a); [discriminate | reflexivity].
Defined.

Lemma Match_range_witness :
  HeaderMatcher.type_ age_10_20 = HeaderMatcher.RANGE
  /\ exists base,
       HeaderMatcher.Match age_10_20 (Some "15")
       = Some (xorb base (HeaderMatcher.invert_match_ age_10_20))
       /\ (base = true <->
           exists n, Decimal.Int64 "15" n /\ 10 <= n < 20)
       /\ ((forall n, ~ Decimal.Int64 "15" n) -> base = false)
       /\ (Decimal.Int64 "15" 20 -> base = false).
Proof.
  split; [reflexivity|].
  apply (Match_range age_10_20 10 20 "15"); reflexivity.
Defined.

Lemma Create_shared_case_sensitive_witness :
  shared_kind HeaderMatcher.EXACT = Some StringMatcher.EXACT
  /\ exists hm : HeaderMatcher.t (engine := RefRE2.engine),
       HeaderMatcher.Create "x" HeaderMatcher.EXACT "foo" 0 0 false false
       = OkValue hm
       /\ HeaderMatcher.matcher_ hm
          = StringMatcher.from_string StringMatcher.EXACT "foo" true
       /\ StringMatcher.case_sensitive_ (HeaderMatcher.matcher_ hm) = true
       /\ forall text, exists b,
            StringMatcher.Match
              (StringMatcher.from_string StringMatcher.EXACT "foo" true) text
            = Some b
            /\ HeaderMatcher.Match hm (Some text) = Some (xorb b false).
Proof.
  split; [reflexivity|].
  apply (Create_shared_case_sensitive (engine := RefRE2.engine) "x"
           HeaderMatcher.EXACT StringMatcher.EXACT "foo" 0 0 false false).
  reflexivity.
Defined.

Lemma ToString_range_witness :
  HeaderMatcher.type_ age_10_20 = HeaderMatcher.RANGE
  /\ HeaderMatcher.ToString age_10_20
     = Some "HeaderMatcher{age range=[10, 20]}".
Proof.
  split; [reflexivity|].
  apply (ToString_range age_10_20 10 20); reflexivity.
Defined.

(** The half-open rendering does not occur in the string form of the
    matcher of [age] in [10, 20). *)
Lemma ToString_range_not_half_open :
  HeaderMatcher.type_ age_10_20 = HeaderMatcher.RANGE
  /\ HeaderMatcher.range_start_ age_10_20 = Some 10
  /\ HeaderMatcher.range_end_ age_10_20 = Some 20
  /\ half_open_range_text age_10_20 10 20 = "age range=[10, 20)"
  /\ ~ (exists s,
          HeaderMatcher.ToString age_10_20 = Some s
          /\ Absl.StrContains s (half_open_range_text age_10_20 10 20)
             = true).
Proof.
  repeat split.
  intros (s & Hs & Hc). injection Hs as <-. discriminate Hc.
Qed.

Lemma Match_pattern_anchored_witness :
  StringMatcher.Create StringMatcher.SAFE_REGEX "a+b" true
  = OkValue (StringMatcher.from_regex (RE2_new "a+b" true) true)
  /\ exists re,
       StringMatcher.regex_matcher_
         (StringMatcher.from_regex (RE2_new "a+b" true) true) = Some re
       /\ RE2_pattern re = "a+b"
       /\ forall v, exists b,
            StringMatcher.Match
              (StringMatcher.from_regex (RE2_new "a+b" true) true) v
            = Some b
            /\ (b = true <-> RE2_span (RE2Contract := engine_contract) re v 0
                               (length v)).
Proof.
  split; [reflexivity|].
  apply (proj1 (Match_pattern_anchored (contract := engine_contract))
           "a+b" true).
  reflexivity.
Defined.

Lemma equal_matchers_same_string_witness :
  HeaderMatcher.eq age_10_20 age_10_20 = Some true
  /\ exists s, HeaderMatcher.ToString age_10_20 = Some s
               /\ HeaderMatcher.ToString age_10_20 = Some s.
Proof.
  split; [reflexivity|].
  apply (proj1 (proj2 (equal_matchers_same_string (engine := RefRE2.engine)))
           age_10_20 age_10_20).
  reflexivity.
Defined.

Lemma Match_ignores_name_witness :
  HeaderMatcher.Create (engine := RefRE2.engine) "age" HeaderMatcher.RANGE ""
    10 20 false false = OkValue age_10_20
  /\ forall value, exists b,
       HeaderMatcher.Match age_10_20 value = Some b
       /\ HeaderMatcher.Match
            (HeaderMatcher.from_range (engine := RefRE2.engine) "years" 10 20
               false) value = Some b.
Proof.
  split; [reflexivity|].
  apply (Match_ignores_name (engine := RefRE2.engine) "age" "years"
           HeaderMatcher.RANGE "" 10 20 false false); reflexivity.
Defined.

Lemma Match_empty_pattern_witness :
  In StringMatcher.SUFFIX
     [StringMatcher.PREFIX; StringMatcher.SUFFIX; StringMatcher.CONTAINS]
  /\ exists sm : StringMatcher.t (engine := RefRE2.engine),
       StringMatcher.Create StringMatcher.SUFFIX "" false = OkValue sm
       /\ StringMatcher.Match sm "Abc" = Some true.
Proof.
  split; [simpl; auto|].
  apply (Match_empty_pattern (engine := RefRE2.engine) StringMatcher.SUFFIX
           false "Abc").
  simpl; auto.
Defined.

End Concrete.

(** ** The scenarios of the specification *)

Section Scenarios.
#[local] Existing Instance RefRE2.engine.

Example scenario_exact_ignoring_case :
  StringMatcher.Match
    (StringMatcher.from_string StringMatcher.EXACT "foo" false) "FOO"
  = Some true.
Proof. reflexivity. Qed.

Example scenario_range :
  HeaderMatcher.Create "age" HeaderMatcher.RANGE "" 10 20 false false
  = OkValue age_10_20
  /\ HeaderMatcher.Match age_10_20 (Some "15") = Some true
  /\ HeaderMatcher.Match age_10_20 (Some "20") = Some false
  /\ HeaderMatcher.Match age_10_20 (Some "abc") = Some false
  /\ HeaderMatcher.Match age_10_20 (Some "15abc") = Some false
  /\ HeaderMatcher.Match age_10_20 None = Some false.
Proof. repeat split. Qed.

Example scenario_present :
  HeaderMatcher.Match (HeaderMatcher.from_present "x" true false) None
  = Some false
  /\ HeaderMatcher.Match (HeaderMatcher.from_present "x" true false)
       (Some "v") = Some true.
Proof. split; reflexivity. Qed.

Example scenario_inverted_exact :
  HeaderMatcher.Create "x" HeaderMatcher.EXACT "a" 0 0 false true
  = OkValue inverted_exact_a
  /\ HeaderMatcher.Match inverted_exact_a None = Some true
  /\ HeaderMatcher.Match inverted_exact_a (Some "a") = Some false
  /\ HeaderMatcher.Match inverted_exact_a (Some "b") = Some true.
Proof. repeat split. Qed.

Example scenario_invalid_range :
  ok (HeaderMatcher.Create "x" HeaderMatcher.RANGE "" 10 5 false false)
  = false.
Proof. reflexivity. Qed.

Example scenario_header_is_case_sensitive :
  exists hm,
    HeaderMatcher.Create "x" HeaderMatcher.EXACT "foo" 0 0 false false
    = OkValue hm
    /\ HeaderMatcher.Match hm (Some "foo") = Some true
    /\ HeaderMatcher.Match hm (Some "FOO") = Some false.
Proof. eexists. repeat split. Qed.

End Scenarios.

(** * Further properties *)

(** ** Prefixes, suffixes and occurrences *)

Lemma length_append (a b : string) :
  length (a ++ b) = (length a + length b)%nat.
Proof. induction a; simpl; congruence. Qed.

Lemma append_nil_r (a : string) : a ++ "" = a.
Proof. induction a; simpl; congruence. Qed.

Lemma append_assoc (a b c : string) : (a ++ b) ++ c = a ++ b ++ c.
Proof. induction a; simpl; congruence. Qed.

Lemma AsciiStrToLower_append (a b : string) :
  Absl.AsciiStrToLower (a ++ b)
  = Absl.AsciiStrToLower a ++ Absl.AsciiStrToLower b.
Proof. induction a; simpl; congruence. Qed.

(** [memcmp] over the length of [p] is zero exactly on the texts that
    start with [p]. *)
Lemma memcmp_prefix (p text : string) :
  ((length p <=? length text)%nat && (Absl.memcmp text p (length p) =? 0)
   = true)
  <-> exists rest, text = p ++ rest.
Proof.
  revert text. induction p as [|c p IH]; intros text.
  - split; [intros _; exists text; reflexivity|].
    intros _. destruct text; reflexivity.
  - destruct text as [|d text].
    + simpl. split; [discriminate | intros [rest H]; discriminate H].
    + cbn [length Absl.memcmp append].
      change (S (length p) <=? S (length text))%nat
        with (length p <=? length text)%nat.
      destruct (Z.eqb_spec (Z.of_N (N_of_ascii d) - Z.of_N (N_of_ascii c)) 0)
        as [E|E].
      * apply N_of_ascii_diff in E. subst d. rewrite IH.
        split; intros [rest H]; exists rest; congruence.
      * split.
        -- intros H. apply andb_true_iff in H as [_ H].
           apply Z.eqb_eq in H. contradiction.
        -- intros [rest H]. injection H as -> _.
           rewrite Z.sub_diag in E. contradiction.
Qed.

Lemma StartsWith_iff (text prefix : string) :
  Absl.StartsWith text prefix = true <-> exists rest, text = prefix ++ rest.
Proof.
  unfold Absl.StartsWith. destruct prefix as [|c p].
  - simpl. split; [intros _; exists text; reflexivity | reflexivity].
  - cbn [Absl.empty orb]. apply memcmp_prefix.
Qed.

Lemma advance_append (front s : string) :
  Absl.advance (length front) (front ++ s) = s.
Proof. induction front; simpl; auto. Qed.

Lemma advance_split (n : nat) (text : string) :
  (n <= length text)%nat ->
  exists front,
    text = front ++ Absl.advance n text /\ length front = n.
Proof.
  revert text. induction n as [|n IH]; intros text Hn.
  - exists "". auto.
  - destruct text as [|c text]; simpl in Hn; [lia|].
    destruct (IH text) as (front & E & Hl); [lia|].
    exists (String c front). simpl. rewrite <- E, Hl. auto.
Qed.

Lemma EndsWith_iff (text suffix : string) :
  Absl.EndsWith text suffix = true <-> exists front, text = front ++ suffix.
Proof.
  unfold Absl.EndsWith. destruct (Absl.empty suffix) eqn:He.
  - destruct suffix; [|discriminate]. simpl.
    split; [intros _; exists text; symmetry; apply append_nil_r | reflexivity].
  - cbn [orb]. split.
    + intros H. apply andb_true_iff in H as [Hl Hm].
      apply Nat.leb_le in Hl. apply Z.eqb_eq in Hm.
      destruct (advance_split (length text - length suffix) text)
        as (front & E & Hf); [lia|].
      exists front. rewrite E at 1. f_equal.
      assert (Hlen : length (Absl.advance (length text - length suffix) text)
                     = length suffix).
      { apply (f_equal length) in E. rewrite length_append in E. lia. }
      apply memcmp_zero_eq; [exact Hlen | rewrite Hlen; exact Hm].
    + intros [front ->]. rewrite length_append.
      replace (length front + length suffix - length suffix)%nat
        with (length front) by lia.
      rewrite advance_append, memcmp_same.
      apply andb_true_iff. split; [apply Nat.leb_le; lia | reflexivity].
Qed.

Lemma find_iff (haystack needle : string) :
  (exists pos, Absl.find haystack needle = Some pos)
  <-> exists before after, haystack = before ++ needle ++ after.
Proof.
  induction haystack as [|c h IH].
  - cbn [Absl.find].
    destruct ((length needle <=? length "")%nat
              && (Absl.memcmp "" needle (length needle) =? 0)) eqn:Hp.
    + apply memcmp_prefix in Hp as [rest Hp].
      split; [|eauto]. intros _. exists "", rest. exact Hp.
    + split; [intros [pos H]; discriminate H|].
      intros (before & after & H).
      destruct before; [|discriminate H].
      assert (Hq : exists rest, "" = needle ++ rest) by eauto.
      apply memcmp_prefix in Hq. congruence.
  - cbn [Absl.find].
    destruct ((length needle <=? length (String c h))%nat
              && (Absl.memcmp (String c h) needle (length needle) =? 0))
      eqn:Hp.
    + apply memcmp_prefix in Hp as [rest Hp].
      split; [|eauto]. intros _. exists "", rest. exact Hp.
    + split.
      * intros [pos H].
        destruct (Absl.find h needle) as [q|] eqn:Hf; [|discriminate H].
        destruct (proj1 IH (ex_intro _ q eq_refl)) as (before & after & E).
        exists (String c before), after. simpl. congruence.
      * intros (before & after & H).
        destruct before as [|d before].
        -- assert (Hq : exists rest, String c h = needle ++ rest) by eauto.
           apply memcmp_prefix in Hq. congruence.
        -- injection H as _ H.
           destruct (proj2 IH (ex_intro _ before (ex_intro _ after H)))
             as [q ->].
           simpl. eauto.
Qed.

Lemma StrContains_iff (haystack needle : string) :
  Absl.StrContains haystack needle = true
  <-> exists before after, haystack = before ++ needle ++ after.
Proof.
  rewrite <- find_iff. unfold Absl.StrContains.
  destruct (Absl.find haystack needle) as [pos|].
  - split; eauto.
  - split; [discriminate | intros [pos H]; discriminate H].
Qed.

Lemma substring_prefix (n : nat) (text : string) :
  (n <= length text)%nat ->
  exists rest, text = substring 0 n text ++ rest
               /\ length (substring 0 n text) = n.
Proof.
  revert text. induction n as [|n IH]; intros text Hn.
  - exists text. destruct text; auto.
  - destruct text as [|c text]; simpl in Hn; [lia|].
    destruct (IH text) as (rest & E & Hl); [lia|].
    exists rest. simpl. rewrite <- E, Hl. auto.
Qed.

Lemma substring_append_left (a b : string) :
  substring 0 (length a) (a ++ b) = a.
Proof.
  induction a as [|c a IH]; simpl.
  - destruct b; reflexivity.
  - rewrite IH. reflexivity.
Qed.

Lemma substring_suffix (n : nat) (text : string) :
  (n <= length text)%nat ->
  exists front, text = front ++ substring (length text - n) n text.
Proof.
  intros Hn.
  remember (length text - n)%nat as k eqn:Hk.
  assert (Hlen : length text = (k + n)%nat) by lia.
  clear Hk Hn. revert text Hlen.
  induction k as [|k IH]; intros text Hlen.
  - exists "". simpl in *.
    destruct (substring_prefix n text) as (rest & E & Hl); [lia|].
    assert (rest = "").
    { apply (f_equal length) in E. rewrite length_append in E.
      destruct rest; [reflexivity | simpl in E; lia]. }
    subst rest. rewrite append_nil_r in E. simpl. exact E.
  - destruct text as [|c text]; simpl in Hlen; [lia|].
    destruct (IH text) as (front & E); [lia|].
    exists (String c front). simpl. congruence.
Qed.

Lemma substring_append_right (a b : string) :
  substring (length (a ++ b) - length b) (length b) (a ++ b) = b.
Proof.
  rewrite length_append.
  replace (length a + length b - length b)%nat with (length a) by lia.
  induction a as [|c a IH]; simpl; [|exact IH].
  pose proof (substring_append_left b "") as H.
  rewrite append_nil_r in H. exact H.
Qed.

Lemma AsciiStrToLower_split (v x y : string) :
  Absl.AsciiStrToLower v = x ++ y ->
  exists v1 v2,
    v = v1 ++ v2 /\ Absl.AsciiStrToLower v1 = x
    /\ Absl.AsciiStrToLower v2 = y.
Proof.
  revert v. induction x as [|c x IH]; intros v H.
  - exists "", v. auto.
  - destruct v as [|d v]; [discriminate H|].
    simpl in H. injection H as Hc H.
    destruct (IH v H) as (v1 & v2 & -> & H1 & H2).
    exists (String d v1), v2. simpl. rewrite Hc, H1. auto.
Qed.

Lemma StartsWithIgnoreCase_iff (text prefix : string) :
  Absl.StartsWithIgnoreCase text prefix = true
  <-> exists head rest,
        text = head ++ rest
        /\ Absl.AsciiStrToLower head = Absl.AsciiStrToLower prefix.
Proof.
  unfold Absl.StartsWithIgnoreCase. split.
  - intros H. apply andb_true_iff in H as [Hl He].
    apply Nat.leb_le in Hl. apply EqualsIgnoreCase_iff in He.
    destruct (substring_prefix (length prefix) text Hl) as (rest & E & _).
    eauto.
  - intros (head & rest & -> & He).
    assert (Hl : length head = length prefix).
    { rewrite <- (AsciiStrToLower_length head), He.
      apply AsciiStrToLower_length. }
    rewrite <- Hl, substring_append_left, length_append.
    apply andb_true_iff. split; [apply Nat.leb_le; lia|].
    apply EqualsIgnoreCase_iff. exact He.
Qed.

Lemma EndsWithIgnoreCase_iff (text suffix : string) :
  Absl.EndsWithIgnoreCase text suffix = true
  <-> exists front tail,
        text = front ++ tail
        /\ Absl.AsciiStrToLower tail = Absl.AsciiStrToLower suffix.
Proof.
  unfold Absl.EndsWithIgnoreCase. split.
  - intros H. apply andb_true_iff in H as [Hl He].
    apply Nat.leb_le in Hl. apply EqualsIgnoreCase_iff in He.
    destruct (substring_suffix (length suffix) text Hl) as (front & E).
    eauto.
  - intros (front & tail & -> & He).
    assert (Hl : length tail = length suffix).
    { rewrite <- (AsciiStrToLower_length tail), He.
      apply AsciiStrToLower_length. }
    rewrite <- Hl, substring_append_right, length_append.
    apply andb_true_iff. split; [apply Nat.leb_le; lia|].
    apply EqualsIgnoreCase_iff. exact He.
Qed.

Lemma StrContains_lower_iff (text needle : string) :
  Absl.StrContains (Absl.AsciiStrToLower text) (Absl.AsciiStrToLower needle)
  = true
  <-> exists before piece after,
        text = before ++ piece ++ after
        /\ Absl.AsciiStrToLower piece = Absl.AsciiStrToLower needle.
Proof.
  rewrite StrContains_iff. split.
  - intros (x & y & H).
    apply AsciiStrToLower_split in H as (before & tail & -> & _ & H).
    apply AsciiStrToLower_split in H as (piece & after & -> & H & _).
    eauto.
  - intros (before & piece & after & -> & H).
    exists (Absl.AsciiStrToLower before), (Absl.AsciiStrToLower after).
    rewrite !AsciiStrToLower_append, H. reflexivity.
Qed.

(** ** More on the matchers *)

Section MoreMatchers.
Context {engine : RE2Engine}.

(** X: a Prefix matcher accepts the values that start with the pattern;
    without case sensitivity, those whose start is the pattern up to the
    case of ASCII letters. *)
Theorem Match_prefix (sm : StringMatcher.t) (v : string) :
  StringMatcher.type_ sm = StringMatcher.PREFIX ->
  exists b,
    StringMatcher.Match sm v = Some b
    /\ (b = true <->
        exists head rest,
          v = head ++ rest
          /\ if StringMatcher.case_sensitive_ sm
             then head = StringMatcher.string_matcher_ sm
             else Absl.AsciiStrToLower head
                  = Absl.AsciiStrToLower (StringMatcher.string_matcher_ sm)).
Proof.
  intros Hk. unfold StringMatcher.Match. rewrite Hk.
  eexists. split; [reflexivity|].
  destruct (StringMatcher.case_sensitive_ sm).
  - rewrite StartsWith_iff. split.
    + intros [rest ->]. eauto.
    + intros (head & rest & -> & ->). eauto.
  - apply StartsWithIgnoreCase_iff.
Qed.

(** X: a Suffix matcher accepts the values that end with the pattern;
    without case sensitivity, those whose end is the pattern up to the
    case of ASCII letters. *)
Theorem Match_suffix (sm : StringMatcher.t) (v : string) :
  StringMatcher.type_ sm = StringMatcher.SUFFIX ->
  exists b,
    StringMatcher.Match sm v = Some b
    /\ (b = true <->
        exists front tail,
          v = front ++ tail
          /\ if StringMatcher.case_sensitive_ sm
             then tail = StringMatcher.string_matcher_ sm
             else Absl.AsciiStrToLower tail
                  = Absl.AsciiStrToLower (StringMatcher.string_matcher_ sm)).
Proof.
  intros Hk. unfold StringMatcher.Match. rewrite Hk.
  eexists. split; [reflexivity|].
  destruct (StringMatcher.case_sensitive_ sm).
  - rewrite EndsWith_iff. split.
    + intros [front ->]. eauto.
    + intros (front & tail & -> & ->). eauto.
  - apply EndsWithIgnoreCase_iff.
Qed.

(** X: a Contains matcher accepts the values in which the pattern
    occurs; without case sensitivity, those with a piece that is the
    pattern up to the case of ASCII letters. *)
Theorem Match_contains (sm : StringMatcher.t) (v : string) :
  StringMatcher.type_ sm = StringMatcher.CONTAINS ->
  exists b,
    StringMatcher.Match sm v = Some b
    /\ (b = true <->
        exists before piece after,
          v = before ++ piece ++ after
          /\ if StringMatcher.case_sensitive_ sm
             then piece = StringMatcher.string_matcher_ sm
             else Absl.AsciiStrToLower piece
                  = Absl.AsciiStrToLower (StringMatcher.string_matcher_ sm)).
Proof.
  intros Hk. unfold StringMatcher.Match. rewrite Hk.
  eexists. split; [reflexivity|].
  destruct (StringMatcher.case_sensitive_ sm).
  - rewrite StrContains_iff. split.
    + intros (before & after & ->). eauto.
    + intros (before & piece & after & -> & ->). eauto.
  - apply StrContains_lower_iff.
Qed.


(** The two shapes of a matcher [Create] returns. *)
Lemma string_created_cases (sm : StringMatcher.t) :
  string_matcher_created sm ->
  (exists type matcher case_sensitive,
     type <> StringMatcher.SAFE_REGEX
     /\ sm = StringMatcher.from_string type matcher case_sensitive)
  \/ (exists matcher case_sensitive,
        RE2_ok (RE2_new matcher case_sensitive) = true
        /\ sm = StringMatcher.from_regex (RE2_new matcher case_sensitive)
                  case_sensitive).
Proof.
  intros (type & matcher & cs & H). unfold StringMatcher.Create in H.
  destruct (StringMatcher.Type_eqb type StringMatcher.SAFE_REGEX) eqn:Ht.
  - destruct (RE2_ok (RE2_new matcher cs)) eqn:Hok; [|discriminate H].
    injection H as <-. right. eauto.
  - injection H as <-. left. exists type, matcher, cs. split; [|reflexivity].
    intros ->. discriminate Ht.
Qed.

Lemma string_Create_members type matcher case_sensitive sm :
  StringMatcher.Create type matcher case_sensitive = OkValue sm ->
  StringMatcher.type_ sm = type
  /\ StringMatcher.case_sensitive_ sm = case_sensitive.
Proof.
  unfold StringMatcher.Create.
  destruct (StringMatcher.Type_eqb type StringMatcher.SAFE_REGEX) eqn:Ht.
  - apply Type_eqb_iff in Ht. subst type.
    destruct (RE2_ok _); [|discriminate].
    intros H. injection H as <-. auto.
  - intros H. injection H as <-. auto.
Qed.

(** X: [StringMatcher::Create] fails only for a pattern that does not
    compile, always with the same status; what it returns otherwise has
    the kind and the flag it was given and holds the text it was given,
    as literal or as the source of the compiled pattern. *)
Theorem string_Create_outcome (type : StringMatcher.Type_)
    (matcher : string) (case_sensitive : bool) :
  (ok (StringMatcher.Create type matcher case_sensitive) = false
   <-> type = StringMatcher.SAFE_REGEX
       /\ RE2_ok (RE2_new matcher case_sensitive) = false)
  /\ (forall status,
        StringMatcher.Create type matcher case_sensitive = NotOk status ->
        status = InvalidArgumentError
                   "Invalid regex string specified in matcher.")
  /\ (forall sm,
        StringMatcher.Create type matcher case_sensitive = OkValue sm ->
        StringMatcher.type_ sm = type
        /\ StringMatcher.case_sensitive_ sm = case_sensitive
        /\ if StringMatcher.Type_eqb type StringMatcher.SAFE_REGEX
           then exists r, StringMatcher.regex_matcher_ sm = Some r
                          /\ RE2_pattern r = matcher /\ RE2_ok r = true
           else StringMatcher.string_matcher_ sm = matcher
                /\ StringMatcher.regex_matcher_ sm = None).
Proof.
  unfold StringMatcher.Create.
  destruct (StringMatcher.Type_eqb type StringMatcher.SAFE_REGEX) eqn:Ht.
  - apply Type_eqb_iff in Ht. subst type.
    destruct (RE2_ok (RE2_new matcher case_sensitive)) eqn:Hok; simpl.
    + split; [|split].
      * split; [discriminate | intros [_ H]; discriminate H].
      * discriminate.
      * intros sm H. injection H as <-. simpl.
        repeat split. eexists. split; [reflexivity|].
        split; [apply RE2_pattern_new | exact Hok].
    + split; [|split].
      * split; auto.
      * intros status H. injection H as <-. reflexivity.
      * discriminate.
  - simpl. split; [|split].
    + split; [discriminate|]. intros [-> _]. discriminate Ht.
    + discriminate.
    + intros sm H. injection H as <-. simpl. auto.
Qed.

(** X: [HeaderMatcher::Create] fails in two cases only: a pattern that
    does not compile as a case-sensitive expression, and a range whose
    start exceeds its end. *)
Theorem header_Create_outcome (name : string) (type : HeaderMatcher.Type_)
    (matcher : string) (range_start range_end : Z)
    (present_match invert_match : bool) :
  (ok (HeaderMatcher.Create name type matcher range_start range_end
         present_match invert_match) = false
   <-> (type = HeaderMatcher.SAFE_REGEX
        /\ RE2_ok (RE2_new matcher true) = false)
       \/ (type = HeaderMatcher.RANGE /\ range_start > range_end))
  /\ (forall status,
        HeaderMatcher.Create name type matcher range_start range_end
          present_match invert_match = NotOk status ->
        status
        = InvalidArgumentError
            (if HeaderMatcher.Type_eqb type HeaderMatcher.RANGE
             then "Invalid range specifier specified: end cannot be smaller than start."
             else "Invalid regex string specified in matcher.")).
Proof.
  unfold HeaderMatcher.Create, StringMatcher.Create.
  destruct type; simpl;
    try (split;
         [ split; [discriminate
                  | intros [[H _]|[H _]]; discriminate H]
         | discriminate ]).
  - destruct (RE2_ok (RE2_new matcher true)); simpl.
    + split; [|discriminate].
      split; [discriminate|].
      intros [[_ H]|[H _]]; discriminate H.
    + split; [split; [left; auto | reflexivity]|].
      intros status H. injection H as <-. reflexivity.
  - destruct (Z.gtb_spec range_start range_end) as [G|G]; simpl.
    + split; [split; [right; split; [reflexivity | lia] | reflexivity]|].
      intros status H. injection H as <-. reflexivity.
    + split; [|discriminate].
      split; [discriminate|].
      intros [[H _]|[_ H]]; [discriminate H | lia].
Qed.

Lemma header_created_well_formed (hm : HeaderMatcher.t) :
  header_matcher_created hm -> header_well_formed hm.
Proof.
  intros (name & type & matcher & rs & re & pm & inv & H).
  unfold header_well_formed.
  destruct (shared_kind type) as [kind|] eqn:Hk.
  - rewrite (Create_shared name type kind matcher rs re pm inv Hk) in H.
    destruct (StringMatcher.Create kind matcher true) as [sm|] eqn:Hc;
      [|discriminate H].
    injection H as <-. simpl.
    destruct (string_Create_members _ _ _ _ Hc) as (Ht & Hcs).
    pose proof (Create_built _ _ _ _ Hc) as Hb.
    destruct type; try discriminate Hk; rewrite Ht; auto.
  - unfold HeaderMatcher.Create in H.
    destruct type; try discriminate Hk; simpl in H.
    + destruct (Z.gtb_spec rs re) as [G|G]; [discriminate H|].
      injection H as <-. simpl. exists rs, re. auto.
    + injection H as <-. simpl. eauto.
Qed.


Lemma string_agree_same (a b : StringMatcher.t) :
  string_payload_agree a b -> string_matcher_same a b.
Proof.
  unfold string_payload_agree, string_matcher_same.
  intros (Ht & Hc & Hp). repeat split; auto.
  destruct (StringMatcher.type_ a); auto.
  destruct Hp as (r & Ha & Hb). exists r, r. auto.
Qed.

Lemma string_agree_Match (a b : StringMatcher.t) (v : string) :
  string_payload_agree a b ->
  exists r, StringMatcher.Match a v = Some r
            /\ StringMatcher.Match b v = Some r.
Proof.
  unfold string_payload_agree, StringMatcher.Match.
  intros (Ht & Hc & Hp). rewrite <- Ht, <- Hc.
  destruct (StringMatcher.type_ a); try (rewrite <- Hp; eauto).
  destruct Hp as (r & -> & ->). simpl. eauto.
Qed.

Lemma string_agree_alike (a b : StringMatcher.t) :
  string_payload_agree a b -> string_matcher_alike a b.
Proof.
  intros H. unfold string_matcher_alike. split; [|split].
  - apply string_eq_iff, string_agree_same, H.
  - apply string_same_ToString, string_agree_same, H.
  - intros v. apply string_agree_Match, H.
Qed.

Lemma header_agree_same (a b : HeaderMatcher.t) :
  header_payload_agree a b -> header_matcher_same a b.
Proof.
  unfold header_payload_agree, header_matcher_same.
  intros (Hn & Ht & Hi & Hp). repeat split; auto.
  destruct (HeaderMatcher.type_ a); auto using string_agree_same.
Qed.

Lemma header_agree_Match (a b : HeaderMatcher.t) (value : option string) :
  header_payload_agree a b ->
  exists r, HeaderMatcher.Match a value = Some r
            /\ HeaderMatcher.Match b value = Some r.
Proof.
  unfold header_payload_agree, HeaderMatcher.Match.
  intros (_ & Ht & Hi & Hp). rewrite <- Ht, <- Hi.
  destruct (HeaderMatcher.type_ a) eqn:Hk; simpl;
    try (destruct value as [text|]; simpl; [|eauto];
         destruct (string_agree_Match _ _ text Hp) as (r & -> & ->);
         simpl; eauto).
  - destruct Hp as (s & e & -> & -> & -> & ->).
    destruct value as [text|]; simpl; [|eauto].
    destruct (Absl.SimpleAtoi text) as [[|] n]; simpl; [|eauto].
    destruct (n >=? s); simpl; eauto.
  - destruct Hp as (p & -> & ->). simpl. eauto.
Qed.

Lemma header_agree_alike (a b : HeaderMatcher.t) :
  header_payload_agree a b -> header_matcher_alike a b.
Proof.
  intros H. unfold header_matcher_alike. split; [|split].
  - apply header_eq_iff, header_agree_same, H.
  - apply header_same_ToString, header_agree_same, H.
  - intros value. apply header_agree_Match, H.
Qed.

(** The three shapes of a matcher [HeaderMatcher::Create] returns. *)
Lemma header_created_cases (hm : HeaderMatcher.t) :
  header_matcher_created hm ->
  (exists name type kind sm invert_match,
     shared_kind type = Some kind
     /\ string_matcher_created sm
     /\ StringMatcher.type_ sm = kind
     /\ hm = HeaderMatcher.from_string_matcher name type sm invert_match)
  \/ (exists name range_start range_end invert_match,
        range_start <= range_end
        /\ hm = HeaderMatcher.from_range name range_start range_end
                  invert_match)
  \/ (exists name present_match invert_match,
        hm = HeaderMatcher.from_present name present_match invert_match).
Proof.
  intros (name & type & matcher & rs & re & pm & inv & H).
  destruct (shared_kind type) as [kind|] eqn:Hk.
  - rewrite (Create_shared name type kind matcher rs re pm inv Hk) in H.
    destruct (StringMatcher.Create kind matcher true) as [sm|] eqn:Hc;
      [|discriminate H].
    injection H as <-. left. exists name, type, kind, sm, inv.
    repeat split; auto.
    + exists kind, matcher, true. exact Hc.
    + apply (string_Create_members _ _ _ _ Hc).
  - unfold HeaderMatcher.Create in H.
    destruct type; try discriminate Hk; simpl in H.
    + destruct (Z.gtb_spec rs re) as [G|G]; [discriminate H|].
      injection H as <-. right. left. exists name, rs, re, inv. auto.
    + injection H as <-. right. right. eauto.
Qed.


(** *** Copies and moves of [StringMatcher] *)

(** X: the copy constructor applied to a matcher [Create] returned
    gives that very matcher: the pattern is compiled again from its
    source text with the same case option. *)
Theorem string_copy_construct (sm : StringMatcher.t) :
  string_matcher_created sm ->
  StringMatcher.copy_construct sm = Some sm.
Proof.
  intros H. unfold StringMatcher.copy_construct.
  destruct (string_created_cases sm H)
    as [(type & matcher & cs & Ht & ->)|(matcher & cs & _ & ->)].
  - simpl. destruct type; try reflexivity. contradiction.
  - simpl. rewrite RE2_pattern_new. reflexivity.
Qed.

Lemma string_copy_assign_agree (self other : StringMatcher.t) :
  string_matcher_created other ->
  exists c, StringMatcher.copy_assign self other = Some c
            /\ string_payload_agree c other.
Proof.
  intros H. unfold StringMatcher.copy_assign, string_payload_agree.
  destruct (string_created_cases other H)
    as [(type & matcher & cs & Ht & ->)|(matcher & cs & _ & ->)].
  - simpl. destruct type; try contradiction;
      (eexists; split; [reflexivity|]; simpl; auto).
  - simpl. rewrite RE2_pattern_new.
    eexists. split; [reflexivity|]. simpl. eauto.
Qed.

(** X: after [a = b], for [b] a matcher [Create] returned and [a] any
    matcher, [a] equals [b], prints like [b] and answers like [b] on
    every value, although the member of [a] that the kind of [b] does
    not use keeps its old content. *)
Theorem string_copy_assign (self other : StringMatcher.t) :
  string_matcher_created other ->
  exists c,
    StringMatcher.copy_assign self other = Some c
    /\ string_matcher_alike c other
    /\ (StringMatcher.type_ other = StringMatcher.SAFE_REGEX ->
        StringMatcher.string_matcher_ c = StringMatcher.string_matcher_ self)
    /\ (StringMatcher.type_ other <> StringMatcher.SAFE_REGEX ->
        StringMatcher.regex_matcher_ c = StringMatcher.regex_matcher_ self).
Proof.
  intros H.
  destruct (string_copy_assign_agree self other H) as (c & Hc & Ha).
  exists c. split; [exact Hc|]. split; [apply string_agree_alike, Ha|].
  revert Hc. unfold StringMatcher.copy_assign.
  destruct (StringMatcher.Type_eqb (StringMatcher.type_ other)
              StringMatcher.SAFE_REGEX) eqn:Ht.
  - destruct (StringMatcher.regex_matcher_ other); [|discriminate].
    simpl. intros E. injection E as <-. simpl. split; [reflexivity|].
    apply Type_eqb_iff in Ht. intros N. contradiction.
  - intros E. injection E as <-. simpl. split; [|reflexivity].
    intros E. apply Type_eqb_iff in E. congruence.
Qed.

Lemma string_move_construct_new (leftover : string)
    (other : StringMatcher.t) :
  string_matcher_created other ->
  fst (StringMatcher.move_construct leftover other) = other.
Proof.
  intros H. unfold StringMatcher.move_construct.
  destruct (string_created_cases other H)
    as [(type & matcher & cs & Ht & ->)|(matcher & cs & _ & ->)].
  - simpl. destruct type; try reflexivity. contradiction.
  - reflexivity.
Qed.

(** X: the move constructor applied to a matcher [Create] returned
    builds that very matcher.  What is left of a Pattern matcher has a
    null [regex_matcher_]: [Match], [ToString] and [operator==] on it
    are undefined.  What is left of a literal matcher is a matcher of the
    same kind and flag for whatever the string that was moved from
    holds. *)
Theorem string_move_construct (leftover : string)
    (other : StringMatcher.t) :
  string_matcher_created other ->
  fst (StringMatcher.move_construct leftover other) = other
  /\ if StringMatcher.Type_eqb (StringMatcher.type_ other)
          StringMatcher.SAFE_REGEX
     then (forall v,
             StringMatcher.Match
               (snd (StringMatcher.move_construct leftover other)) v = None)
          /\ StringMatcher.ToString
               (snd (StringMatcher.move_construct leftover other)) = None
          /\ forall b,
               StringMatcher.eq
                 (snd (StringMatcher.move_construct leftover other)) b
               <> Some true
     else snd (StringMatcher.move_construct leftover other)
          = StringMatcher.from_string (StringMatcher.type_ other) leftover
              (StringMatcher.case_sensitive_ other).
Proof.
  intros H. split; [apply string_move_construct_new, H|].
  unfold StringMatcher.move_construct.
  destruct (string_created_cases other H)
    as [(type & matcher & cs & Ht & ->)|(matcher & cs & _ & ->)].
  - simpl. destruct type; try reflexivity. contradiction.
  - simpl. split; [reflexivity|]. split; [reflexivity|].
    intros b. unfold StringMatcher.eq. simpl.
    destruct (negb _ || negb _); discriminate.
Qed.

Lemma string_move_assign_agree (leftover : string)
    (self other : StringMatcher.t) :
  string_matcher_created other ->
  string_payload_agree (fst (StringMatcher.move_assign leftover self other))
    other.
Proof.
  intros H. unfold StringMatcher.move_assign, string_payload_agree.
  destruct (string_created_cases other H)
    as [(type & matcher & cs & Ht & ->)|(matcher & cs & _ & ->)].
  - simpl. destruct type; try contradiction; simpl; auto.
  - simpl. eauto.
Qed.

(** X: after [a = std::move(b)], for [b] a matcher [Create] returned
    and [a] any other matcher, [a] equals what [b] was, prints like it
    and answers like it on every value; what is left of a Pattern
    matcher [b] has a null [regex_matcher_], so that [Match] on it is
    undefined. *)
Theorem string_move_assign (leftover : string)
    (self other : StringMatcher.t) :
  string_matcher_created other ->
  string_matcher_alike (fst (StringMatcher.move_assign leftover self other))
    other
  /\ (StringMatcher.type_ other = StringMatcher.SAFE_REGEX ->
      forall v,
        StringMatcher.Match
          (snd (StringMatcher.move_assign leftover self other)) v = None).
Proof.
  intros H. split.
  - apply string_agree_alike, string_move_assign_agree, H.
  - intros Ht v. unfold StringMatcher.move_assign, StringMatcher.Match.
    rewrite Ht. reflexivity.
Qed.


(** *** Copies and moves of [HeaderMatcher] *)

Lemma string_copy_assign_default (sm : StringMatcher.t) :
  string_matcher_created sm ->
  StringMatcher.copy_assign StringMatcher.default sm = Some sm.
Proof.
  intros H. unfold StringMatcher.copy_assign.
  destruct (string_created_cases sm H)
    as [(type & matcher & cs & Ht & ->)|(matcher & cs & _ & ->)].
  - simpl. destruct type; try reflexivity. contradiction.
  - simpl. rewrite RE2_pattern_new. reflexivity.
Qed.

Lemma string_move_assign_default (leftover : string)
    (sm : StringMatcher.t) :
  string_matcher_created sm ->
  fst (StringMatcher.move_assign leftover StringMatcher.default sm) = sm.
Proof.
  intros H. unfold StringMatcher.move_assign.
  destruct (string_created_cases sm H)
    as [(type & matcher & cs & Ht & ->)|(matcher & cs & _ & ->)].
  - simpl. destruct type; try reflexivity. contradiction.
  - reflexivity.
Qed.

(** X: the copy constructor applied to a matcher [Create] returned
    gives that very matcher. *)
Theorem header_copy_construct (hm : HeaderMatcher.t) :
  header_matcher_created hm ->
  HeaderMatcher.copy_construct hm = Some hm.
Proof.
  intros H. unfold HeaderMatcher.copy_construct.
  destruct (header_created_cases hm H)
    as [(name & type & kind & sm & inv & Hk & Hsm & _ & ->)
       |[(name & rs & re & inv & _ & ->)|(name & pm & inv & ->)]];
    try reflexivity.
  simpl. rewrite (string_copy_assign_default sm Hsm).
  destruct type; try discriminate Hk; reflexivity.
Qed.

Lemma header_copy_assign_agree (self other : HeaderMatcher.t) :
  header_matcher_created other ->
  exists c, HeaderMatcher.copy_assign self other = Some c
            /\ header_payload_agree c other.
Proof.
  intros H. unfold HeaderMatcher.copy_assign, header_payload_agree.
  destruct (header_created_cases other H)
    as [(name & type & kind & sm & inv & Hk & Hsm & _ & ->)
       |[(name & rs & re & inv & _ & ->)|(name & pm & inv & ->)]].
  - destruct (string_copy_assign_agree (HeaderMatcher.matcher_ self) sm Hsm)
      as (c & Hc & Ha).
    simpl.
    destruct type; try discriminate Hk; rewrite Hc; simpl;
      (eexists; split; [reflexivity|]; simpl; auto).
  - simpl. eexists. split; [reflexivity|]. simpl.
    repeat split. exists rs, re. auto.
  - simpl. eexists. split; [reflexivity|]. simpl.
    repeat split. exists pm. auto.
Qed.

(** X: after [a = b], for [b] a matcher [Create] returned and [a] any
    matcher, [a] equals [b], prints like [b] and answers like [b] on
    every value, present or absent. *)
Theorem header_copy_assign (self other : HeaderMatcher.t) :
  header_matcher_created other ->
  exists c,
    HeaderMatcher.copy_assign self other = Some c
    /\ header_matcher_alike c other.
Proof.
  intros H.
  destruct (header_copy_assign_agree self other H) as (c & Hc & Ha).
  exists c. split; [exact Hc | apply header_agree_alike, Ha].
Qed.

(** X: the move constructor applied to a matcher [Create] returned
    builds that very matcher.  What is left still answers an absent
    value as before, but when its kind is Pattern the embedded
    [regex_matcher_] is null and [Match] on a present value is
    undefined. *)
Theorem header_move_construct (leftover_name leftover_matcher : string)
    (other : HeaderMatcher.t) :
  header_matcher_created other ->
  exists left,
    HeaderMatcher.move_construct leftover_name leftover_matcher other
    = Some (other, left)
    /\ HeaderMatcher.name_ left = leftover_name
    /\ HeaderMatcher.Match left None = HeaderMatcher.Match other None
    /\ (HeaderMatcher.type_ other = HeaderMatcher.SAFE_REGEX ->
        forall text, HeaderMatcher.Match left (Some text) = None).
Proof.
  intros H. unfold HeaderMatcher.move_construct.
  destruct (header_created_cases other H)
    as [(name & type & kind & sm & inv & Hk & Hsm & Hsk & ->)
       |[(name & rs & re & inv & _ & ->)|(name & pm & inv & ->)]].
  - simpl.
    pose proof (string_move_assign_default leftover_matcher sm Hsm) as Hf.
    destruct (StringMatcher.move_assign leftover_matcher
                StringMatcher.default sm) as [matcher left] eqn:Hm.
    simpl in Hf. subst matcher.
    assert (Hleft : StringMatcher.type_ sm = StringMatcher.SAFE_REGEX ->
                    forall v, StringMatcher.Match left v = None).
    { intros Ht v.
      replace left
        with (snd (StringMatcher.move_assign leftover_matcher
                     StringMatcher.default sm)) by (rewrite Hm; reflexivity).
      unfold StringMatcher.move_assign, StringMatcher.Match.
      rewrite Ht. reflexivity. }
    destruct type; try discriminate Hk;
      (eexists; split; [reflexivity|]; simpl;
       split; [reflexivity|]; split; [reflexivity|];
       try discriminate).
    intros _ text. unfold HeaderMatcher.Match. simpl.
    rewrite Hleft; [reflexivity|].
    injection Hk as <-. exact Hsk.
  - simpl. eexists. split; [reflexivity|]. simpl.
    repeat split. discriminate.
  - simpl. eexists. split; [reflexivity|]. simpl.
    repeat split. discriminate.
Qed.

Lemma header_move_assign_agree (leftover_name leftover_matcher : string)
    (self other : HeaderMatcher.t) :
  header_matcher_created other ->
  exists c left,
    HeaderMatcher.move_assign leftover_name leftover_matcher self other
    = Some (c, left)
    /\ header_payload_agree c other.
Proof.
  intros H. unfold HeaderMatcher.move_assign, header_payload_agree.
  destruct (header_created_cases other H)
    as [(name & type & kind & sm & inv & Hk & Hsm & _ & ->)
       |[(name & rs & re & inv & _ & ->)|(name & pm & inv & ->)]].
  - pose proof (string_move_assign_agree leftover_matcher
                  (HeaderMatcher.matcher_ self) sm Hsm) as Ha.
    simpl.
    destruct (StringMatcher.move_assign leftover_matcher
                (HeaderMatcher.matcher_ self) sm) as [matcher left].
    simpl in Ha.
    destruct type; try discriminate Hk;
      (eexists; eexists; split; [reflexivity|]; simpl; auto).
  - simpl. eexists. eexists. split; [reflexivity|]. simpl.
    repeat split. exists rs, re. auto.
  - simpl. eexists. eexists. split; [reflexivity|]. simpl.
    repeat split. exists pm. auto.
Qed.

(** X: after [a = std::move(b)], for [b] a matcher [Create] returned
    and [a] any other matcher, [a] equals what [b] was, prints like it
    and answers like it on every value. *)
Theorem header_move_assign (leftover_name leftover_matcher : string)
    (self other : HeaderMatcher.t) :
  header_matcher_created other ->
  exists c left,
    HeaderMatcher.move_assign leftover_name leftover_matcher self other
    = Some (c, left)
    /\ header_matcher_alike c other.
Proof.
  intros H.
  destruct (header_move_assign_agree leftover_name leftover_matcher self
              other H) as (c & left & Hc & Ha).
  exists c, left. split; [exact Hc | apply header_agree_alike, Ha].
Qed.


(** *** [operator==] *)

Lemma view_eq_sym (a b : string) : Absl.view_eq a b = Absl.view_eq b a.
Proof.
  destruct (Absl.view_eq a b) eqn:E1, (Absl.view_eq b a) eqn:E2; auto.
  - apply view_eq_iff in E1. subst b. rewrite view_eq_refl in E2.
    discriminate E2.
  - apply view_eq_iff in E2. subst b. rewrite view_eq_refl in E1.
    discriminate E1.
Qed.

Lemma string_eq_sym (a b : StringMatcher.t) :
  StringMatcher.eq a b = StringMatcher.eq b a.
Proof.
  unfold StringMatcher.eq.
  destruct (StringMatcher.type_ a) eqn:Ha, (StringMatcher.type_ b) eqn:Hb;
    simpl; try reflexivity;
    destruct (StringMatcher.case_sensitive_ a),
      (StringMatcher.case_sensitive_ b); simpl; try reflexivity;
    try (rewrite view_eq_sym; reflexivity);
    destruct (StringMatcher.regex_matcher_ a),
      (StringMatcher.regex_matcher_ b); simpl; try reflexivity;
    rewrite view_eq_sym; reflexivity.
Qed.

Lemma string_same_trans (a b c : StringMatcher.t) :
  string_matcher_same a b -> string_matcher_same b c ->
  string_matcher_same a c.
Proof.
  unfold string_matcher_same.
  intros (Ht1 & Hc1 & Hp1) (Ht2 & Hc2 & Hp2).
  rewrite <- Ht1 in Hp2.
  repeat split; try congruence.
  destruct (StringMatcher.type_ a); try congruence.
  destruct Hp1 as (r1 & r2 & E1 & E2 & E).
  destruct Hp2 as (r2' & r3 & E2' & E3 & E').
  exists r1, r3. repeat split; auto. congruence.
Qed.

(** X: [operator==] of [StringMatcher] does not depend on the order of
    its operands, and is transitive. *)
Theorem string_eq_equivalence (a b c : StringMatcher.t) :
  StringMatcher.eq a b = StringMatcher.eq b a
  /\ (StringMatcher.eq a b = Some true ->
      StringMatcher.eq b c = Some true ->
      StringMatcher.eq a c = Some true).
Proof.
  split; [apply string_eq_sym|].
  rewrite !string_eq_iff. apply string_same_trans.
Qed.

Lemma header_eq_sym (a b : HeaderMatcher.t) :
  HeaderMatcher.eq a b = HeaderMatcher.eq b a.
Proof.
  unfold HeaderMatcher.eq.
  rewrite (view_eq_sym (HeaderMatcher.name_ b)).
  destruct (Absl.view_eq (HeaderMatcher.name_ a) (HeaderMatcher.name_ b));
    simpl; [|reflexivity].
  destruct (HeaderMatcher.type_ a) eqn:Ha, (HeaderMatcher.type_ b) eqn:Hb;
    simpl; try reflexivity;
    destruct (HeaderMatcher.invert_match_ a),
      (HeaderMatcher.invert_match_ b); simpl; try reflexivity;
    try apply string_eq_sym.
  all: try (destruct (HeaderMatcher.range_start_ a) as [s1|],
              (HeaderMatcher.range_start_ b) as [s2|]; simpl;
            try reflexivity;
            rewrite (Z.eqb_sym s2 s1);
            destruct (s1 =? s2); [|reflexivity];
            destruct (HeaderMatcher.range_end_ a) as [e1|],
              (HeaderMatcher.range_end_ b) as [e2|]; simpl;
            try reflexivity;
            rewrite (Z.eqb_sym e2 e1); reflexivity).
  all: destruct (HeaderMatcher.present_match_ a) as [[|]|],
         (HeaderMatcher.present_match_ b) as [[|]|]; reflexivity.
Qed.

Lemma header_same_trans (a b c : HeaderMatcher.t) :
  header_matcher_same a b -> header_matcher_same b c ->
  header_matcher_same a c.
Proof.
  unfold header_matcher_same.
  intros (Hn1 & Ht1 & Hi1 & Hp1) (Hn2 & Ht2 & Hi2 & Hp2).
  rewrite <- Ht1 in Hp2.
  repeat split; try congruence.
  destruct (HeaderMatcher.type_ a);
    try (eapply string_same_trans; eassumption).
  - destruct Hp1 as (s & e & E1 & E2 & E3 & E4).
    destruct Hp2 as (s' & e' & E1' & E2' & E3' & E4').
    exists s, e. repeat split; congruence.
  - destruct Hp1 as (p & E1 & E2). destruct Hp2 as (p' & E1' & E2').
    exists p. split; congruence.
Qed.

(** X: [operator==] of [HeaderMatcher] does not depend on the order of
    its operands, and is transitive. *)
Theorem header_eq_equivalence (a b c : HeaderMatcher.t) :
  HeaderMatcher.eq a b = HeaderMatcher.eq b a
  /\ (HeaderMatcher.eq a b = Some true ->
      HeaderMatcher.eq b c = Some true ->
      HeaderMatcher.eq a c = Some true).
Proof.
  split; [apply header_eq_sym|].
  rewrite !header_eq_iff. apply header_same_trans.
Qed.

Lemma string_created_same_identity (a b : StringMatcher.t) :
  string_matcher_created a -> string_matcher_created b ->
  string_matcher_same a b -> a = b.
Proof.
  intros Ha Hb (Ht & Hc & Hp).
  destruct (string_created_cases a Ha)
    as [(ta & ma & ca & Hta & ->)|(ma & ca & _ & ->)];
    destruct (string_created_cases b Hb)
      as [(tb & mb & cb & Htb & ->)|(mb & cb & _ & ->)];
    simpl in *; subst.
  - destruct tb; try contradiction; congruence.
  - contradiction.
  - contradiction.
  - destruct Hp as (r1 & r2 & E1 & E2 & E).
    injection E1 as <-. injection E2 as <-.
    rewrite !RE2_pattern_new in E. subst. reflexivity.
Qed.

(** X: two matchers [StringMatcher::Create] returned that [operator==]
    declares equal are the same matcher, and so accept the same
    values. *)
Theorem string_eq_interchangeable (a b : StringMatcher.t) :
  string_matcher_created a -> string_matcher_created b ->
  StringMatcher.eq a b = Some true ->
  a = b
  /\ forall v, exists r,
       StringMatcher.Match a v = Some r /\ StringMatcher.Match b v = Some r.
Proof.
  intros Ha Hb He. apply string_eq_iff in He.
  pose proof (string_created_same_identity a b Ha Hb He) as <-.
  split; [reflexivity|]. intros v.
  destruct Ha as (type & matcher & cs & Hc).
  destruct (Match_built_returns a v (Create_built _ _ _ _ Hc)) as [r Hr].
  eauto.
Qed.

(** X: two matchers [HeaderMatcher::Create] returned that [operator==]
    declares equal are the same matcher, and so give the same answer on
    every value. *)
Theorem header_eq_interchangeable (a b : HeaderMatcher.t) :
  header_matcher_created a -> header_matcher_created b ->
  HeaderMatcher.eq a b = Some true ->
  a = b
  /\ forall value, exists r,
       HeaderMatcher.Match a value = Some r
       /\ HeaderMatcher.Match b value = Some r.
Proof.
  intros Ha Hb He. apply header_eq_iff in He.
  assert (E : a = b).
  { destruct He as (Hn & Ht & Hi & Hp).
    destruct (header_created_cases a Ha)
      as [(na & ta & ka & sa & ia & Hka & Hsa & _ & ->)
         |[(na & sa & ea & ia & _ & ->)|(na & pa & ia & ->)]];
      destruct (header_created_cases b Hb)
        as [(nb & tb & kb & sb & ib & Hkb & Hsb & _ & ->)
           |[(nb & sb & eb & ib & _ & ->)|(nb & pb & ib & ->)]];
      simpl in *; subst; try discriminate.
    - assert (Hs : string_matcher_same sa sb)
        by (destruct tb; try discriminate Hkb; exact Hp).
      rewrite (string_created_same_identity sa sb Hsa Hsb Hs). reflexivity.
    - destruct Hp as (s & e & E1 & E2 & E3 & E4). congruence.
    - destruct Hp as (p & E1 & E2). congruence. }
  subst b. split; [reflexivity|]. intros value.
  destruct Ha as (name & type & matcher & rs & re & pm & inv & Hc).
  destruct (header_Match_returns _ _ _ _ _ _ _ _ value Hc) as [r Hr].
  eauto.
Qed.


(** *** What [Create] establishes and what the members rely on *)

(** X: a matcher [HeaderMatcher::Create] returned has the name, kind and
    inversion flag it was given and the payload of its kind: a
    case-sensitive [StringMatcher] of the same kind, or bounds with
    [range_start <= range_end], or the presence flag. *)
Theorem header_Create_invariant (name : string) (type : HeaderMatcher.Type_)
    (matcher : string) (range_start range_end : Z)
    (present_match invert_match : bool) (hm : HeaderMatcher.t) :
  HeaderMatcher.Create name type matcher range_start range_end present_match
    invert_match = OkValue hm ->
  HeaderMatcher.name_ hm = name
  /\ HeaderMatcher.type_ hm = type
  /\ HeaderMatcher.invert_match_ hm = invert_match
  /\ header_well_formed hm.
Proof.
  intros H.
  assert (Hw : header_well_formed hm).
  { apply header_created_well_formed.
    exists name, type, matcher, range_start, range_end, present_match,
      invert_match. exact H. }
  revert Hw. revert H. unfold HeaderMatcher.Create, StringMatcher.Create.
  destruct type; simpl;
    try (destruct (RE2_ok (RE2_new matcher true)); simpl; [|discriminate]);
    try (destruct (range_start >? range_end); [discriminate|]);
    intros H; injection H as <-; auto.
Qed.

(** X: on a well-formed [HeaderMatcher], in particular on every matcher
    [Create] returned, no member function dereferences a null
    [regex_matcher_] or reads a member that was never written: [Match]
    returns on every value, [ToString] returns, the matcher equals
    itself and can be copied. *)
Theorem header_well_formed_defined (hm : HeaderMatcher.t) :
  header_well_formed hm ->
  (forall value, exists b, HeaderMatcher.Match hm value = Some b)
  /\ (exists s, HeaderMatcher.ToString hm = Some s)
  /\ HeaderMatcher.eq hm hm = Some true
  /\ exists c, HeaderMatcher.copy_construct hm = Some c
                /\ header_well_formed c.
Proof.
  unfold header_well_formed. intros Hw.
  assert (Hsame : header_matcher_same hm hm).
  { unfold header_matcher_same. repeat split.
    destruct (HeaderMatcher.type_ hm);
      try (apply string_same_refl; tauto).
    - destruct Hw as (s & e & Hs & He & _). exists s, e. auto.
    - destruct Hw as (p & Hp). exists p. auto. }
  split; [|split; [|split]].
  - intros value. unfold HeaderMatcher.Match.
    destruct (HeaderMatcher.type_ hm) eqn:Hk; simpl;
      try (destruct value as [text|]; simpl; [|eauto];
           destruct Hw as (_ & Hb & _);
           destruct (Match_built_returns _ text Hb) as [b ->];
           simpl; eauto).
    + destruct Hw as (s & e & -> & -> & _).
      destruct value as [text|]; simpl; [|eauto].
      destruct (Absl.SimpleAtoi text) as [[|] n]; simpl; [|eauto].
      destruct (n >=? s); simpl; eauto.
    + destruct Hw as (p & ->). simpl. eauto.
  - destruct (header_same_ToString hm hm Hsame) as (s & Hs & _). eauto.
  - apply header_eq_iff, Hsame.
  - unfold HeaderMatcher.copy_construct, header_well_formed.
    destruct (HeaderMatcher.type_ hm) eqn:Hk;
      try (destruct Hw as (Hs & Hb & Hc);
           unfold StringMatcher.copy_assign;
           destruct (StringMatcher.type_ (HeaderMatcher.matcher_ hm))
             eqn:Hm; try discriminate Hs; simpl;
           try (destruct (Hb Hm) as [r ->]; simpl);
           eexists; (split; [reflexivity|]); simpl; rewrite ?Hk, ?Hm;
           repeat split; auto; unfold string_matcher_built; simpl;
           eauto; discriminate).
    + destruct Hw as (s & e & -> & -> & Hle). simpl.
      eexists. split; [reflexivity|]. simpl. rewrite ?Hk. eauto.
    + destruct Hw as (p & ->). simpl.
      eexists. split; [reflexivity|]. simpl. rewrite ?Hk. eauto.
Qed.


(** *** Presence, inversion and white space *)

(** X: a Present matcher never looks at the text of a value: every
    present value gets the answer [present_match xor invert_match], an
    absent one the opposite answer. *)
Theorem Match_present (hm : HeaderMatcher.t) (present_match : bool) :
  HeaderMatcher.type_ hm = HeaderMatcher.PRESENT ->
  HeaderMatcher.present_match_ hm = Some present_match ->
  (forall text,
     HeaderMatcher.Match hm (Some text)
     = Some (xorb present_match (HeaderMatcher.invert_match_ hm)))
  /\ HeaderMatcher.Match hm None
     = Some (negb (xorb present_match (HeaderMatcher.invert_match_ hm))).
Proof.
  intros Hk Hp. unfold HeaderMatcher.Match. rewrite Hk, Hp. simpl.
  split; [intros _|];
    destruct present_match, (HeaderMatcher.invert_match_ hm); reflexivity.
Qed.

(** X: two matchers built from the same arguments except for the
    inversion flag give opposite answers on every value, present or
    absent. *)
Theorem Match_inverted (name : string) (type : HeaderMatcher.Type_)
    (matcher : string) (range_start range_end : Z) (present_match : bool)
    (plain inverted : HeaderMatcher.t) :
  HeaderMatcher.Create name type matcher range_start range_end present_match
    false = OkValue plain ->
  HeaderMatcher.Create name type matcher range_start range_end present_match
    true = OkValue inverted ->
  forall value, exists b,
    HeaderMatcher.Match plain value = Some b
    /\ HeaderMatcher.Match inverted value = Some (negb b).
Proof.
  intros Hp Hi value.
  destruct (header_Match_returns _ _ _ _ _ _ _ _ value Hp) as [b Hb].
  exists b. split; [exact Hb|].
  revert Hp Hi Hb. unfold HeaderMatcher.Create.
  destruct (HeaderMatcher.to_int type <? 5).
  - destruct (StringMatcher.Create _ matcher true) as [sm|]; [|discriminate].
    intros Hp Hi. injection Hp as <-. injection Hi as <-.
    unfold HeaderMatcher.Match. simpl.
    destruct (HeaderMatcher.Type_eqb type HeaderMatcher.PRESENT); simpl;
      [discriminate|].
    destruct value as [text|]; simpl.
    + destruct (HeaderMatcher.Type_eqb type HeaderMatcher.RANGE); simpl;
        [destruct (Absl.SimpleAtoi text) as [[|] n]; simpl;
         try discriminate|].
      all: try (intros H; injection H as <-; reflexivity).
      destruct (StringMatcher.Match sm text) as [[|]|]; simpl;
        intros H; try discriminate H; injection H as <-; reflexivity.
    + intros H; injection H as <-; reflexivity.
  - destruct (HeaderMatcher.Type_eqb type HeaderMatcher.RANGE).
    + destruct (range_start >? range_end); [discriminate|].
      intros Hp Hi. injection Hp as <-. injection Hi as <-.
      unfold HeaderMatcher.Match. simpl.
      destruct value as [text|]; simpl.
      * destruct (Absl.SimpleAtoi text) as [[|] n]; simpl.
        -- destruct (n >=? range_start); simpl;
             [destruct (n <? range_end)|];
             intros H; injection H as <-; reflexivity.
        -- intros H; injection H as <-; reflexivity.
      * intros H; injection H as <-; reflexivity.
    + intros Hp Hi. injection Hp as <-. injection Hi as <-.
      unfold HeaderMatcher.Match. simpl.
      destruct value, present_match; simpl;
        intros H; injection H as <-; reflexivity.
Qed.

Lemma skip_leading_space_all (s : string) :
  Decimal.all_space s = true -> Absl.skip_leading_space s = "".
Proof.
  induction s as [|c s IH]; simpl; auto.
  intros H. apply andb_true_iff in H as [-> Hs]. auto.
Qed.

Lemma all_space_append (a b : string) :
  Decimal.all_space a = true -> Decimal.all_space b = true ->
  Decimal.all_space (a ++ b) = true.
Proof.
  induction a as [|c a IH]; simpl; auto.
  intros H Hb. apply andb_true_iff in H as [-> Ha]. simpl. auto.
Qed.

Lemma skip_leading_space_append (s after : string) :
  Decimal.all_space after = true ->
  Absl.skip_trailing_space (Absl.skip_leading_space (s ++ after))
  = Absl.skip_trailing_space (Absl.skip_leading_space s).
Proof.
  intros Ha. induction s as [|c s IH].
  - simpl. rewrite (skip_leading_space_all after Ha). reflexivity.
  - cbn [append Absl.skip_leading_space].
    destruct (Absl.ascii_isspace c); [exact IH|].
    change (String c (s ++ after)) with (String c s ++ after).
    apply skip_trailing_space_app. exact Ha.
Qed.

Lemma SimpleAtoi_strip (before text after : string) :
  Decimal.all_space before = true -> Decimal.all_space after = true ->
  Absl.SimpleAtoi (before ++ text ++ after) = Absl.SimpleAtoi text.
Proof.
  intros Hb Ha.
  unfold Absl.SimpleAtoi, Absl.safe_strto64_base10,
    Absl.safe_parse_sign_and_base.
  rewrite (skip_leading_space_app before (text ++ after) Hb).
  rewrite (skip_leading_space_append text after Ha). reflexivity.
Qed.

(** X: a Range matcher gives a value the same answer with and without
    ASCII white space around it. *)
Theorem Match_range_white_space (hm : HeaderMatcher.t)
    (before text after : string) :
  HeaderMatcher.type_ hm = HeaderMatcher.RANGE ->
  Decimal.all_space before = true ->
  Decimal.all_space after = true ->
  HeaderMatcher.Match hm (Some (before ++ text ++ after))
  = HeaderMatcher.Match hm (Some text).
Proof.
  intros Hk Hb Ha. unfold HeaderMatcher.Match. rewrite Hk. simpl.
  rewrite (SimpleAtoi_strip before text after Hb Ha). reflexivity.
Qed.

(** *** The string form does not determine the matcher *)

(** X: for every literal kind and pattern [p], the case-sensitive
    matcher of [p ++ ", case_sensitive=false"] and the case-insensitive
    matcher of [p] have the same string form although [operator==]
    tells them apart; for the kind Exact the first accepts
    [p ++ ", case_sensitive=false"] and the second refuses it. *)
Theorem string_ToString_not_injective (type : StringMatcher.Type_)
    (p : string) :
  type <> StringMatcher.SAFE_REGEX ->
  exists a b,
    StringMatcher.Create type (p ++ ", case_sensitive=false") true
    = OkValue a
    /\ StringMatcher.Create type p false = OkValue b
    /\ StringMatcher.ToString a = StringMatcher.ToString b
    /\ StringMatcher.eq a b = Some false
    /\ (type = StringMatcher.EXACT ->
        StringMatcher.Match a (p ++ ", case_sensitive=false") = Some true
        /\ StringMatcher.Match b (p ++ ", case_sensitive=false")
           = Some false).
Proof.
  intros Ht. unfold StringMatcher.Create.
  assert (E : StringMatcher.Type_eqb type StringMatcher.SAFE_REGEX = false).
  { destruct type; try reflexivity. contradiction. }
  rewrite E. eexists. eexists.
  split; [reflexivity|]. split; [reflexivity|]. split; [|split].
  - unfold StringMatcher.ToString, StringMatcher.case_suffix. simpl.
    destruct type; try contradiction; simpl; rewrite append_assoc;
      reflexivity.
  - unfold StringMatcher.eq. simpl.
    destruct (StringMatcher.Type_eqb type type); reflexivity.
  - intros ->. unfold StringMatcher.Match. simpl. split.
    + rewrite view_eq_refl. reflexivity.
    + f_equal. unfold Absl.EqualsIgnoreCase.
      rewrite length_append. simpl.
      replace (length p + 22 =? length p)%nat with false; [reflexivity|].
      symmetry. apply Nat.eqb_neq. lia.
Qed.

(** X: for every name and presence flag, the plain Present matcher
    named [name ++ " not"] and the inverted one named [name] have the
    same string form, although [operator==] tells them apart and they
    give opposite answers on every value. *)
Theorem header_ToString_not_injective (name : string)
    (present_match : bool) :
  exists a b,
    HeaderMatcher.Create (name ++ " not") HeaderMatcher.PRESENT "" 0 0
      present_match false = OkValue a
    /\ HeaderMatcher.Create name HeaderMatcher.PRESENT "" 0 0 present_match
         true = OkValue b
    /\ HeaderMatcher.ToString a = HeaderMatcher.ToString b
    /\ HeaderMatcher.eq a b = Some false
    /\ forall value, exists r,
         HeaderMatcher.Match a value = Some r
         /\ HeaderMatcher.Match b value = Some (negb r).
Proof.
  eexists. eexists.
  split; [reflexivity|]. split; [reflexivity|]. split; [|split].
  - unfold HeaderMatcher.ToString, HeaderMatcher.not_prefix. simpl.
    rewrite append_assoc. reflexivity.
  - unfold HeaderMatcher.eq. simpl.
    replace (Absl.view_eq (name ++ " not") name) with false; [reflexivity|].
    symmetry. unfold Absl.view_eq. rewrite length_append. simpl.
    replace (length name + 4 =? length name)%nat with false; [reflexivity|].
    symmetry. apply Nat.eqb_neq. lia.
  - intros value. unfold HeaderMatcher.Match. simpl.
    destruct value, present_match; simpl; eauto.
Qed.

End MoreMatchers.

(** ** The further properties at concrete matchers *)

Section MoreConcrete.
#[local] Existing Instance RefRE2.engine.

Lemma pattern_a_plus_b_created : string_matcher_created pattern_a_plus_b.
Proof. exists StringMatcher.SAFE_REGEX, "a+b", true. reflexivity. Defined.

Lemma prefix_ab_created : string_matcher_created prefix_ab.
Proof. exists StringMatcher.PREFIX, "ab", false. reflexivity. Defined.

Lemma path_a_plus_b_created : header_matcher_created path_a_plus_b.
Proof.
  exists "path", HeaderMatcher.SAFE_REGEX, "a+b", 0, 0, false, false.
  reflexivity.
Defined.

Lemma age_10_20_created : header_matcher_created age_10_20.
Proof.
  exists "age", HeaderMatcher.RANGE, "", 10, 20, false, false.
  reflexivity.
Defined.

Lemma Match_prefix_witness :
  StringMatcher.type_ prefix_ab = StringMatcher.PREFIX
  /\ exists b,
       StringMatcher.Match prefix_ab "ABc" = Some b
       /\ (b = true <->
           exists head rest,
             "ABc" = head ++ rest
             /\ Absl.AsciiStrToLower head = Absl.AsciiStrToLower "ab").
Proof.
  split; [reflexivity|].
  exact (Match_prefix prefix_ab "ABc" eq_refl).
Defined.

Lemma Match_suffix_witness :
  StringMatcher.type_ suffix_ab = StringMatcher.SUFFIX
  /\ exists b,
       StringMatcher.Match suffix_ab "cab" = Some b
       /\ (b = true <->
           exists front tail, "cab" = front ++ tail /\ tail = "ab").
Proof.
  split; [reflexivity|].
  exact (Match_suffix suffix_ab "cab" eq_refl).
Defined.

Lemma Match_contains_witness :
  StringMatcher.type_ contains_ab = StringMatcher.CONTAINS
  /\ exists b,
       StringMatcher.Match contains_ab "xABy" = Some b
       /\ (b = true <->
           exists before piece after,
             "xABy" = before ++ piece ++ after
             /\ Absl.AsciiStrToLower piece = Absl.AsciiStrToLower "ab").
Proof.
  split; [reflexivity|].
  exact (Match_contains contains_ab "xABy" eq_refl).
Defined.

Lemma string_copy_construct_witness :
  StringMatcher.copy_construct pattern_a_plus_b = Some pattern_a_plus_b.
Proof.
  apply (string_copy_construct pattern_a_plus_b).
  exact pattern_a_plus_b_created.
Defined.

Lemma string_copy_assign_witness :
  exists c,
    StringMatcher.copy_assign prefix_ab pattern_a_plus_b = Some c
    /\ string_matcher_alike c pattern_a_plus_b
    /\ StringMatcher.string_matcher_ c = "ab".
Proof.
  destruct (string_copy_assign prefix_ab pattern_a_plus_b
              pattern_a_plus_b_created) as (c & Hc & Ha & Hs & _).
  exists c. split; [exact Hc|]. split; [exact Ha|].
  exact (Hs eq_refl).
Defined.

Lemma string_move_construct_witness :
  fst (StringMatcher.move_construct "" pattern_a_plus_b) = pattern_a_plus_b
  /\ forall v,
       StringMatcher.Match
         (snd (StringMatcher.move_construct "" pattern_a_plus_b)) v = None.
Proof.
  destruct (string_move_construct "" pattern_a_plus_b
              pattern_a_plus_b_created) as (Hn & Hm & _).
  split; [exact Hn | exact Hm].
Defined.

Lemma string_move_assign_witness :
  string_matcher_alike
    (fst (StringMatcher.move_assign "" prefix_ab pattern_a_plus_b))
    pattern_a_plus_b
  /\ forall v,
       StringMatcher.Match
         (snd (StringMatcher.move_assign "" prefix_ab pattern_a_plus_b)) v
       = None.
Proof.
  destruct (string_move_assign "" prefix_ab pattern_a_plus_b
              pattern_a_plus_b_created) as (Ha & Hm).
  split; [exact Ha | exact (Hm eq_refl)].
Defined.

Lemma header_copy_construct_witness :
  HeaderMatcher.copy_construct path_a_plus_b = Some path_a_plus_b.
Proof.
  apply (header_copy_construct path_a_plus_b).
  exact path_a_plus_b_created.
Defined.

Lemma header_copy_assign_witness :
  exists c,
    HeaderMatcher.copy_assign age_10_20 path_a_plus_b = Some c
    /\ header_matcher_alike c path_a_plus_b.
Proof.
  apply (header_copy_assign age_10_20 path_a_plus_b).
  exact path_a_plus_b_created.
Defined.

Lemma header_move_construct_witness :
  exists left,
    HeaderMatcher.move_construct "" "" path_a_plus_b
    = Some (path_a_plus_b, left)
    /\ forall text, HeaderMatcher.Match left (Some text) = None.
Proof.
  destruct (header_move_construct "" "" path_a_plus_b path_a_plus_b_created)
    as (left & Hm & _ & _ & Hu).
  exists left. split; [exact Hm | exact (Hu eq_refl)].
Defined.

Lemma header_move_assign_witness :
  exists c left,
    HeaderMatcher.move_assign "" "" age_10_20 path_a_plus_b = Some (c, left)
    /\ header_matcher_alike c path_a_plus_b.
Proof.
  apply (header_move_assign "" "" age_10_20 path_a_plus_b).
  exact path_a_plus_b_created.
Defined.

Lemma string_eq_interchangeable_witness :
  StringMatcher.eq pattern_a_plus_b pattern_a_plus_b = Some true
  /\ forall v, exists r,
       StringMatcher.Match pattern_a_plus_b v = Some r
       /\ StringMatcher.Match pattern_a_plus_b v = Some r.
Proof.
  split; [reflexivity|].
  apply (string_eq_interchangeable pattern_a_plus_b pattern_a_plus_b
           pattern_a_plus_b_created pattern_a_plus_b_created).
  reflexivity.
Defined.

Lemma header_eq_interchangeable_witness :
  HeaderMatcher.eq path_a_plus_b path_a_plus_b = Some true
  /\ forall value, exists r,
       HeaderMatcher.Match path_a_plus_b value = Some r
       /\ HeaderMatcher.Match path_a_plus_b value = Some r.
Proof.
  split; [reflexivity|].
  apply (header_eq_interchangeable path_a_plus_b path_a_plus_b
           path_a_plus_b_created path_a_plus_b_created).
  reflexivity.
Defined.

Lemma header_Create_invariant_witness :
  HeaderMatcher.Create "age" HeaderMatcher.RANGE "" 10 20 false false
  = OkValue age_10_20
  /\ header_well_formed age_10_20.
Proof.
  split; [reflexivity|].
  apply (header_Create_invariant "age" HeaderMatcher.RANGE "" 10 20 false
           false age_10_20).
  reflexivity.
Defined.

Lemma header_well_formed_defined_witness :
  header_well_formed path_a_plus_b
  /\ forall value, exists b, HeaderMatcher.Match path_a_plus_b value = Some b.
Proof.
  assert (Hw : header_well_formed path_a_plus_b).
  { unfold header_well_formed, string_matcher_built. simpl.
    repeat split. intros _. eexists. reflexivity. }
  split; [exact Hw|].
  apply (header_well_formed_defined path_a_plus_b Hw).
Defined.

Lemma Match_present_witness :
  HeaderMatcher.type_ present_x = HeaderMatcher.PRESENT
  /\ (forall text, HeaderMatcher.Match present_x (Some text) = Some true)
  /\ HeaderMatcher.Match present_x None = Some false.
Proof.
  split; [reflexivity|].
  exact (Match_present present_x true eq_refl eq_refl).
Defined.

Lemma Match_inverted_witness :
  HeaderMatcher.Create "age" HeaderMatcher.RANGE "" 10 20 false false
  = OkValue age_10_20
  /\ forall value, exists b,
       HeaderMatcher.Match age_10_20 value = Some b
       /\ HeaderMatcher.Match (HeaderMatcher.from_range "age" 10 20 true)
            value = Some (negb b).
Proof.
  split; [reflexivity|].
  apply (Match_inverted "age" HeaderMatcher.RANGE "" 10 20 false);
    reflexivity.
Defined.

Lemma Match_range_white_space_witness :
  Decimal.all_space " " = true
  /\ HeaderMatcher.Match age_10_20 (Some (" " ++ "15" ++ " "))
     = HeaderMatcher.Match age_10_20 (Some "15").
Proof.
  split; [reflexivity|].
  apply (Match_range_white_space age_10_20 " " "15" " "); reflexivity.
Defined.

Lemma string_ToString_not_injective_witness :
  StringMatcher.EXACT <> StringMatcher.SAFE_REGEX
  /\ exists a b : StringMatcher.t,
       StringMatcher.ToString a = StringMatcher.ToString b
       /\ StringMatcher.eq a b = Some false.
Proof.
  assert (Hn : StringMatcher.EXACT <> StringMatcher.SAFE_REGEX)
    by discriminate.
  split; [exact Hn|].
  destruct (string_ToString_not_injective StringMatcher.EXACT "v" Hn)
    as (a & b & _ & _ & Hs & He & _).
  exists a, b. split; [exact Hs | exact He].
Defined.

End MoreConcrete.
